(** * Gatus: the watchdog, the cached status controller and the probe client

    A shallow embedding of the Go packages [watchdog], [controller], [client]
    and of the [store.Store] interface, with the properties of the
    health-monitoring engine proved over it.

    Conventions.
    - A Go [int] or [time.Duration] is a [Z]; durations and clock readings are
      nanoseconds, as in package [time].
    - A [[]byte] is a [list byte]; a Go string is a [string].
    - A nil pointer is [None].
    - Calls into collaborators whose code lives outside these packages are
      recorded as events (the health evaluator, the metrics, the store's
      insertion, the alert handler) or are the methods of a class (the store's
      reads, the JSON encoder and gzip, the ICMP pinger). *)

From Stdlib Require Import ZArith QArith Lia.
From stdpp Require Import base option list strings pretty gmap.

Local Open Scope string_scope.
Local Open Scope list_scope.
Local Open Scope Z_scope.

(** ** Package core: the fields of the domain types that the code reads *)

Module Core.

Record Service := mkService {
  Name : string;
  Group : string;
  URL : string;
  Interval : Z
}.

Record Result := mkResult {
  HTTPStatus : Z;
  Success : bool;
  Errors : list string;
  Duration : Z
}.

Record Config := mkConfig {
  Services : list Service;
  DisableMonitoringLock : bool;
  Debug : bool;
  Metrics : bool
}.

(** Modelled from the spec: [core.Event], [core.Uptime] and
    [core.ServiceStatus] (section 3: a bounded sequence of the most recent
    results, oldest first, the state-transition events and the uptime
    buckets); package [core] is not part of the sources. An uptime bucket is
    its start, its successes and its total. *)
Inductive EventType := Healthy | Unhealthy.

Record Event := mkEvent {
  Type_ : EventType;
  Timestamp : Z
}.

Definition Uptime := list (Z * nat * nat).

Record ServiceStatus := mkServiceStatus {
  Results : list Result;
  Events : list Event;
  Uptime_ : Uptime
}.

(** Modelled from the spec: [ServiceStatus.WithResultPagination] (section
    4.2: a copy with only a page window of the results, most recent first;
    a page out of range gives no results). *)
Definition WithResultPagination (ss : ServiceStatus) (page pageSize : Z)
  : ServiceStatus :=
  {| Results :=
       if (page <? 1) || (pageSize <? 1) then []
       else take (Z.to_nat pageSize)
              (drop (Z.to_nat ((page - 1) * pageSize)) (reverse (Results ss)));
     Events := Events ss;
     Uptime_ := Uptime_ ss |}.

End Core.

(** ** Package time *)

Module Time.

Definition Nanosecond : Z := 1.
Definition Microsecond : Z := 1000 * Nanosecond.
Definition Millisecond : Z := 1000 * Microsecond.
Definition Second : Z := 1000 * Millisecond.

End Time.

(** ** Package watchdog *)

Module Watchdog.
Import Core.

(** What a goroutine of the watchdog does to the rest of the process. *)
Inductive event :=
| EvSleep (d : Z)
| EvGo (s : Service)
| EvLock
| EvUnlock
| EvLogMonitoring (s : Service)
| EvEvaluateCall (s : Service)
| EvEvaluateReturn (s : Service) (r : Result)
| EvPublishMetrics (s : Service) (r : Result)
| EvInsert (s : Service) (r : Result)
| EvLogMonitored (s : Service) (r : Result)
| EvHandleAlerting (s : Service) (r : Result)
| EvLogWaiting (s : Service).

(** *** Monitor: the staggered start *)

Definition startDelay : Z := 1111 * Time.Millisecond.

(** The launcher's view: its clock, the goroutines it has started (with the
    clock reading at the [go] statement) and what it did. *)
Record launcher := mkLauncher {
  clock : Z;
  started : list (Service * Z);
  did : list event
}.

(** [time.Sleep d] pauses for at least [d]; [late] is by how much the
    runtime overshoots. *)
Definition sleep (d : Z) (late : N) (l : launcher) : launcher :=
  {| clock := clock l + d + Z.of_N late;
     started := started l;
     did := did l ++ [EvSleep d] |}.

Definition go_monitor (s : Service) (l : launcher) : launcher :=
  {| clock := clock l;
     started := started l ++ [(s, clock l)];
     did := did l ++ [EvGo s] |}.

(** The [for _, service := range cfg.Services] loop. [lates] gives the
    overshoot of each successive sleep (none when the list runs out). *)
Fixpoint Monitor_range (services : list Service) (lates : list N)
    (l : launcher) : launcher :=
  match services with
  | [] => l
  | service :: rest =>
      let l1 := sleep startDelay (hd 0%N lates) l in
      let l2 := go_monitor service l1 in
      Monitor_range rest (tl lates) l2
  end.

Definition Monitor (cfg : Config) (lates : list N) (t0 : Z) : launcher :=
  Monitor_range (Services cfg) lates
    {| clock := t0; started := []; did := [] |}.

(** *** monitor: one goroutine per service, sharing [monitoringMutex] *)

(** The program points of the body of the [for] loop of [monitor]. After
    the evaluation returns, the local [result] is carried along. *)
Inductive pc :=
| AtLock
| AtDebugMonitoring
| AtEvaluate
| Evaluating
| AtPublish (result : Result)
| AtUpdate (result : Result)
| AtLogMonitored (result : Result)
| AtAlerting (result : Result)
| AtDebugWaiting (result : Result)
| AtUnlock (result : Result)
| AtSleep (result : Result).

(** [UpdateServiceStatuses] is [storage.Get().Insert(service, result)]. *)
Definition UpdateServiceStatuses (service : Service) (result : Result)
  : list event := [EvInsert service result].

(** The process: the state of [monitoringMutex], whether the runtime has
    aborted (unlocking an unlocked [sync.Mutex] is fatal), where each
    goroutine stands, and the events so far, oldest first, each with the
    index of the goroutine that produced it. *)
Record sys := mkSys {
  locked : bool;
  fatal : bool;
  pcs : list pc;
  trace : list (nat * event)
}.

Definition when (b : bool) (evs : list event) : list event :=
  if b then evs else [].

(** One step of the goroutine standing at [p]; [answer] is what
    [service.EvaluateHealth()] returns should the step be its return.
    The result is the new mutex state, whether the step was fatal, the next
    program point and the events of the step; [None] when the goroutine is
    blocked on the mutex. *)
Definition monitor_step (cfg : Config) (service : Service) (answer : Result)
    (lk : bool) (p : pc) : option (bool * bool * pc * list event) :=
  match p with
  | AtLock =>
      if negb (DisableMonitoringLock cfg)
      then if lk then None
           else Some (true, false, AtDebugMonitoring, [EvLock])
      else Some (lk, false, AtDebugMonitoring, [])
  | AtDebugMonitoring =>
      Some (lk, false, AtEvaluate, when (Debug cfg) [EvLogMonitoring service])
  | AtEvaluate =>
      Some (lk, false, Evaluating, [EvEvaluateCall service])
  | Evaluating =>
      Some (lk, false, AtPublish answer, [EvEvaluateReturn service answer])
  | AtPublish result =>
      Some (lk, false, AtUpdate result, [EvPublishMetrics service result])
  | AtUpdate result =>
      Some (lk, false, AtLogMonitored result,
            UpdateServiceStatuses service result)
  | AtLogMonitored result =>
      Some (lk, false, AtAlerting result, [EvLogMonitored service result])
  | AtAlerting result =>
      Some (lk, false, AtDebugWaiting result,
            [EvHandleAlerting service result])
  | AtDebugWaiting result =>
      Some (lk, false, AtUnlock result,
            when (Debug cfg) [EvLogWaiting service])
  | AtUnlock result =>
      if negb (DisableMonitoringLock cfg)
      then if lk then Some (false, false, AtSleep result, [EvUnlock])
           else Some (lk, true, AtUnlock result, [])
      else Some (lk, false, AtSleep result, [])
  | AtSleep result =>
      Some (lk, false, AtLock, [EvSleep (Interval service)])
  end.

(** The scheduler lets goroutine [i] take one step. Nothing happens when
    there is no such goroutine, when it is blocked, or after a fatal error. *)
Definition step (cfg : Config) (i : nat) (answer : Result) (s : sys) : sys :=
  if fatal s then s else
  match Services cfg !! i, pcs s !! i with
  | Some service, Some p =>
      match monitor_step cfg service answer (locked s) p with
      | Some (lk, ft, p', evs) =>
          {| locked := lk; fatal := ft; pcs := <[i := p']> (pcs s);
             trace := trace s ++ map (pair i) evs |}
      | None => s
      end
  | _, _ => s
  end.

Definition schedule := list (nat * Result).

Fixpoint run (cfg : Config) (sched : schedule) (s : sys) : sys :=
  match sched with
  | [] => s
  | (i, answer) :: rest => run cfg rest (step cfg i answer s)
  end.

(** Every goroutine at the head of its loop, the mutex free. A goroutine
    that [Monitor] has not launched yet is one that has not been scheduled
    yet. *)
Definition init (cfg : Config) : sys :=
  {| locked := false; fatal := false;
     pcs := map (fun _ => AtLock) (Services cfg);
     trace := [] |}.

(** The events of one whole iteration of the loop of [monitor], in program
    order, when the evaluation returns [result]. *)
Definition iteration (cfg : Config) (service : Service) (result : Result)
  : list event :=
  when (negb (DisableMonitoringLock cfg)) [EvLock]
  ++ when (Debug cfg) [EvLogMonitoring service]
  ++ [EvEvaluateCall service; EvEvaluateReturn service result;
      EvPublishMetrics service result]
  ++ UpdateServiceStatuses service result
  ++ [EvLogMonitored service result; EvHandleAlerting service result]
  ++ when (Debug cfg) [EvLogWaiting service]
  ++ when (negb (DisableMonitoringLock cfg)) [EvUnlock]
  ++ [EvSleep (Interval service)].

(** The events of goroutine [i] in a trace. *)
Definition events_of (i : nat) (tr : list (nat * event)) : list event :=
  omap (fun '(j, e) => if decide (j = i) then Some e else None) tr.

Definition is_lock_event (e : event) : bool :=
  match e with EvLock | EvUnlock => true | _ => false end.

(** The calls that hand the result on, and the return that produced it. *)
Definition is_forwarding (e : event) : bool :=
  match e with
  | EvEvaluateReturn _ _ | EvPublishMetrics _ _ | EvInsert _ _
  | EvHandleAlerting _ _ => true
  | _ => false
  end.

(** The events that delimit the critical section and what it protects. *)
Definition is_guarded (e : event) : bool :=
  match e with
  | EvLock | EvUnlock | EvEvaluateCall _ | EvEvaluateReturn _ _
  | EvHandleAlerting _ _ => true
  | _ => false
  end.

Fixpoint keep {A} (f : A -> bool) (l : list A) : list A :=
  match l with
  | [] => []
  | x :: l' => if f x then x :: keep f l' else keep f l'
  end.

Fixpoint count {A} (f : A -> bool) (l : list A) : nat :=
  match l with
  | [] => 0
  | x :: l' => (if f x then 1 else 0) + count f l'
  end.

Definition is_evaluating (p : pc) : bool :=
  match p with Evaluating => true | _ => false end.

(** Between the [Lock] and the [Unlock] of the source. *)
Definition in_critical (p : pc) : bool :=
  match p with AtLock | AtSleep _ => false | _ => true end.

(** A goroutine's events are whole iterations followed by the beginning of
    one. *)
Definition follows_loop (cfg : Config) (service : Service)
    (evs : list event) : Prop :=
  exists (results : list Result) (result : Result) (k : nat),
    evs = flat_map (iteration cfg service) results
          ++ take k (iteration cfg service result).

(** *** Invariants of the process *)

(** With the toggle on, the mutex is held exactly while one goroutine is
    between its [Lock] and its [Unlock]. *)
Definition lock_inv (s : sys) : Prop :=
  fatal s = false /\
  count in_critical (pcs s) = (if locked s then 1 else 0)%nat.

(** With the toggle off, nobody touches the mutex. *)
Definition unlocked_inv (s : sys) : Prop :=
  fatal s = false /\ locked s = false /\
  keep (fun x => is_lock_event (snd x)) (trace s) = [].

(** The events of the current iteration that lie before program point
    [p]. *)
Definition before (cfg : Config) (service : Service) (p : pc)
  : list event :=
  let lk := when (negb (DisableMonitoringLock cfg)) [EvLock] in
  let dbg := when (Debug cfg) [EvLogMonitoring service] in
  let evaluated r :=
    lk ++ dbg ++ [EvEvaluateCall service; EvEvaluateReturn service r] in
  match p with
  | AtLock => []
  | AtDebugMonitoring => lk
  | AtEvaluate => lk ++ dbg
  | Evaluating => lk ++ dbg ++ [EvEvaluateCall service]
  | AtPublish r => evaluated r
  | AtUpdate r => evaluated r ++ [EvPublishMetrics service r]
  | AtLogMonitored r =>
      evaluated r ++ [EvPublishMetrics service r; EvInsert service r]
  | AtAlerting r =>
      evaluated r ++ [EvPublishMetrics service r; EvInsert service r;
                      EvLogMonitored service r]
  | AtDebugWaiting r =>
      evaluated r ++ [EvPublishMetrics service r; EvInsert service r;
                      EvLogMonitored service r; EvHandleAlerting service r]
  | AtUnlock r =>
      evaluated r ++ [EvPublishMetrics service r; EvInsert service r;
                      EvLogMonitored service r; EvHandleAlerting service r]
      ++ when (Debug cfg) [EvLogWaiting service]
  | AtSleep r =>
      evaluated r ++ [EvPublishMetrics service r; EvInsert service r;
                      EvLogMonitored service r; EvHandleAlerting service r]
      ++ when (Debug cfg) [EvLogWaiting service]
      ++ when (negb (DisableMonitoringLock cfg)) [EvUnlock]
  end.

(** Every goroutine has produced whole iterations and then the events
    before its program point. *)
Definition shape_inv (cfg : Config) (s : sys) : Prop :=
  length (pcs s) = length (Services cfg) /\
  forall i service p,
    Services cfg !! i = Some service -> pcs s !! i = Some p ->
    exists results,
      events_of i (trace s)
      = flat_map (iteration cfg service) results ++ before cfg service p.

(** What is handed on in one iteration. *)
Definition forwarding (service : Service) (result : Result) : list event :=
  [EvEvaluateReturn service result; EvPublishMetrics service result;
   EvInsert service result; EvHandleAlerting service result].

(** What the critical section brackets in one iteration. *)
Definition guarded (service : Service) (result : Result) : list event :=
  [EvLock; EvEvaluateCall service; EvEvaluateReturn service result;
   EvHandleAlerting service result; EvUnlock].

(** The clock readings at the successive [go] statements of [Monitor]
    started at clock [c] for [n] services. *)
Fixpoint launch_times (n : nat) (lates : list N) (c : Z) : list Z :=
  match n with
  | O => []
  | S n' =>
      let c' := c + startDelay + Z.of_N (hd 0%N lates) in
      c' :: launch_times n' (tl lates) c'
  end.

(** Goroutine [i] of [s] stands at [p], the mutex is [lk], nothing fatal
    happened and the trace is [tr]. *)
Definition stands_at (s : sys) (i : nat) (p : pc) (lk : bool)
    (tr : list (nat * event)) : Prop :=
  fatal s = false /\ locked s = lk /\ pcs s !! i = Some p /\ trace s = tr.

(** *** A small configuration to run the definitions on *)

Definition frontend : Service :=
  mkService "frontend" "core" "https://example.org/health"
    (60 * Time.Second).

Definition backend : Service :=
  mkService "backend" "core" "https://example.org/api/health"
    (30 * Time.Second).

Definition healthy : Result := mkResult 200 true [] (35 * Time.Millisecond).

Definition failing : Result :=
  mkResult 503 false ["[STATUS] == 200"] (12 * Time.Millisecond).

Definition serialized : Config :=
  {| Services := [frontend; backend]; DisableMonitoringLock := false;
     Debug := false; Metrics := true |}.

Definition unserialized : Config :=
  {| Services := [frontend; backend]; DisableMonitoringLock := true;
     Debug := true; Metrics := false |}.

(** Both goroutines try to enter; the second one keeps being scheduled
    while the first evaluates. *)
Definition contended : schedule :=
  [(0%nat, healthy); (1%nat, failing); (0%nat, healthy); (1%nat, failing);
   (0%nat, healthy); (0%nat, healthy); (1%nat, failing); (0%nat, healthy)].

End Watchdog.


(** ** Package gocache, as [controller] configures and uses it

    The cache is a library outside the repository. It is a keyed list of
    entries, most recently written first, with an expiration per entry, lazy
    removal of an expired entry when it is read, and removal of the oldest
    entry when a write makes the cache larger than its maximum size. *)

Module Gocache.

Inductive EvictionPolicy := LeastRecentlyUsed | FirstInFirstOut.

Definition NoMaxSize : Z := 0.
Definition NoExpiration : Z := -1.

Record Entry := mkEntry {
  Key : string;
  Value : list Byte.byte;
  Expiration : Z
}.

Record Cache := mkCache {
  maxSize : Z;
  evictionPolicy : EvictionPolicy;
  entries : list Entry
}.

(** The settings of a new cache are overwritten by the controller. *)
Definition NewCache : Cache :=
  {| maxSize := NoMaxSize; evictionPolicy := FirstInFirstOut;
     entries := [] |}.

Definition WithMaxSize (n : Z) (c : Cache) : Cache :=
  {| maxSize := n; evictionPolicy := evictionPolicy c;
     entries := entries c |}.

Definition WithEvictionPolicy (p : EvictionPolicy) (c : Cache) : Cache :=
  {| maxSize := maxSize c; evictionPolicy := p; entries := entries c |}.

Definition with_entries (es : list Entry) (c : Cache) : Cache :=
  {| maxSize := maxSize c; evictionPolicy := evictionPolicy c;
     entries := es |}.

Definition has_key (key : string) (e : Entry) : bool :=
  bool_decide (Key e = key).

(** An entry has expired once the clock is past its expiration. *)
Definition Expired (now : Z) (e : Entry) : bool :=
  (0 <? Expiration e) && (Expiration e <? now).

Definition get (key : string) (c : Cache) : option Entry :=
  List.find (has_key key) (entries c).

Definition without (key : string) (es : list Entry) : list Entry :=
  List.filter (fun e => negb (has_key key e)) es.

(** [Get] at clock reading [now]: the value and whether it exists, and the
    cache afterwards. *)
Definition Get (now : Z) (key : string) (c : Cache)
  : option (list Byte.byte) * Cache :=
  match get key c with
  | None => (None, c)
  | Some e =>
      if Expired now e
      then (None, with_entries (without key (entries c)) c)
      else (Some (Value e),
            match evictionPolicy c with
            | LeastRecentlyUsed =>
                with_entries (e :: without key (entries c)) c
            | FirstInFirstOut => c
            end)
  end.

(** Removal of the oldest entry. *)
Definition evict (es : list Entry) : list Entry := removelast es.

(** What a write does once the entry is in: evict when there is a maximum
    size and the cache has grown past it. *)
Definition enforce_max (m : Z) (es : list Entry) : list Entry :=
  if negb (m =? NoMaxSize) && (m <? Z.of_nat (length es))
  then evict es else es.

(** [SetWithTTL] at clock reading [now]. *)
Definition SetWithTTL (now : Z) (key : string) (value : list Byte.byte)
    (ttl : Z) (c : Cache) : Cache :=
  let e := {| Key := key; Value := value;
              Expiration := if decide (ttl = NoExpiration)
                            then NoExpiration else now + ttl |} in
  with_entries (enforce_max (maxSize c) (e :: without key (entries c))) c.

(** One pass of the janitor that [StartJanitor] leaves running in the
    background: it deletes expired entries, those of [among] that it gets
    to. *)
Definition Janitor_pass (now : Z) (among : Entry -> bool) (c : Cache)
  : Cache :=
  with_entries
    (List.filter (fun e => negb (among e && Expired now e)) (entries c)) c.

(** The settings a cache was created with. *)
Definition same_settings (c c' : Cache) : Prop :=
  maxSize c' = maxSize c /\ evictionPolicy c' = evictionPolicy c.

End Gocache.

(** ** Package storage/store: the part of the interface the controller calls *)

Module Storage.
Import Core.

Class Store (S : Type) := {
  GetAllServiceStatusesWithResultPagination :
    S -> Z -> Z -> gmap string ServiceStatus;
  GetServiceStatusByKey : S -> string -> option ServiceStatus
}.

(** Modelled from the spec: [memory.Store], the implementation of the
    interface (section 4.2: the full aggregate for one service, or a
    not-found indicator if the key is unknown; for every known service a
    copy of its status with a page window of its results). Only the
    compile-time check that it implements the interface is part of the
    sources. *)
Definition memory := gmap string ServiceStatus.

#[export] Instance memory_Store : Store memory := {|
  GetAllServiceStatusesWithResultPagination m page pageSize :=
    (fun ss => WithResultPagination ss page pageSize) <$> m;
  GetServiceStatusByKey m key := m !! key
|}.

End Storage.

(** ** Package controller *)

Module Controller.
Import Core Gocache Storage.

Definition cacheTTL : Z := 10 * Time.Second.

(** [gocache.NewCache().WithMaxSize(999999).WithEvictionPolicy(gocache.FirstInFirstOut)] *)
Definition cache : Cache :=
  WithEvictionPolicy FirstInFirstOut (WithMaxSize 999999 NewCache).

(** What the handlers hand to [json.Marshal]. *)
Inductive payload :=
| Statuses (all : gmap string ServiceStatus)
| Detail (serviceStatus : ServiceStatus) (events : list Event)
    (uptime : Uptime).

(** [json.Marshal] ([None] is a non-nil [err]) and the bytes a
    [gzip.Writer] leaves in its buffer once closed. *)
Class Encoder := {
  Marshal : payload -> option (list Byte.byte);
  Gzip : list Byte.byte -> list Byte.byte
}.

(** The parts of [*http.Request] the handlers look at: the Accept-Encoding
    header, what [extractPageAndPageSizeFromRequest] makes of the query and
    [mux.Vars(r)["key"]]. *)
Record Request := mkRequest {
  AcceptEncoding : string;
  page : Z;
  pageSize : Z;
  key : string
}.

Record ResponseWriter := mkResponseWriter {
  Header : list (string * string);
  status : option Z;
  body : list Byte.byte
}.

Definition newWriter : ResponseWriter :=
  {| Header := []; status := None; body := [] |}.

Definition Header_Set (k v : string) (w : ResponseWriter) : ResponseWriter :=
  {| Header := (k, v) :: List.filter (fun kv => negb (bool_decide (kv.1 = k)))
                           (Header w);
     status := status w; body := body w |}.

Definition Header_Add (k v : string) (w : ResponseWriter) : ResponseWriter :=
  {| Header := Header w ++ [(k, v)]; status := status w; body := body w |}.

Definition WriteHeader (code : Z) (w : ResponseWriter) : ResponseWriter :=
  {| Header := Header w; status := Some code; body := body w |}.

Definition Write (data : list Byte.byte) (w : ResponseWriter)
  : ResponseWriter :=
  {| Header := Header w; status := status w; body := body w ++ data |}.

Definition StatusOK : Z := 200.
Definition StatusNotFound : Z := 404.
Definition StatusInternalServerError : Z := 500.

Definition bytes (s : string) : list Byte.byte := String.list_byte_of_string s.

(** [strings.Contains] *)
Fixpoint Contains (s substr : string) : bool :=
  if String.prefix substr s then true
  else match s with
       | EmptyString => false
       | String _ s' => Contains s' substr
       end.

(** [fmt.Sprintf("service-status-%d-%d", page, pageSize)] *)
Definition plainKey (page pageSize : Z) : string :=
  "service-status-" +:+ pretty page +:+ "-" +:+ pretty pageSize.

(** [fmt.Sprintf("service-status-%d-%d-gzipped", page, pageSize)] *)
Definition gzippedKey (page pageSize : Z) : string :=
  "service-status-" +:+ pretty page +:+ "-" +:+ pretty pageSize
  +:+ "-gzipped".

Section Handlers.
Context {S : Type} {store_ops : Store S} {encoder : Encoder}.

(** The package-level cache, the store behind [storage.Get()], and the
    number of times line 119 (the read of all statuses and its
    marshalling) has run; the latter is bookkeeping of the model. *)
Record world := mkWorld {
  the_cache : Cache;
  the_store : S;
  computed : nat
}.

(** The clock readings at the cache operations of one call. *)
Record readings := mkReadings {
  atGet : Z;
  atSetPlain : Z;
  atSetGzipped : Z
}.

(** The locals of [serviceStatusesHandler] after its cache lookup. *)
Record looked := mkLooked {
  l_page : Z;
  l_pageSize : Z;
  gzipped : bool;
  writer : ResponseWriter;
  value : option (list Byte.byte)
}.

(** Lines 104 to 113: up to and including [cache.Get]. *)
Definition serviceStatusesHandler_lookup (now : Z) (r : Request)
    (w : world) : looked * world :=
  let '(page, pageSize) := (page r, pageSize r) in
  let gzipped := Contains (AcceptEncoding r) "gzip" in
  if gzipped then
    let writer := Header_Set "Content-Encoding" "gzip" newWriter in
    let '(value, c) := Get now (gzippedKey page pageSize) (the_cache w) in
    (mkLooked page pageSize gzipped writer value,
     mkWorld c (the_store w) (computed w))
  else
    let '(value, c) := Get now (plainKey page pageSize) (the_cache w) in
    (mkLooked page pageSize gzipped newWriter value,
     mkWorld c (the_store w) (computed w)).

(** Lines 114 to 139: the rest of the handler. *)
Definition serviceStatusesHandler_finish (t : readings) (l : looked)
    (w : world) : ResponseWriter * world :=
  let '(page, pageSize) := (l_page l, l_pageSize l) in
  match value l with
  | None =>
      match Marshal (Statuses (GetAllServiceStatusesWithResultPagination
                                 (the_store w) page pageSize)) with
      | None =>
          (Write (bytes "Unable to marshal object to JSON")
             (WriteHeader StatusInternalServerError (writer l)),
           mkWorld (the_cache w) (the_store w) (1 + computed w))
      | Some data =>
          let gzippedData := Gzip data in
          let c1 := SetWithTTL (atSetPlain t) (plainKey page pageSize)
                      data cacheTTL (the_cache w) in
          let c2 := SetWithTTL (atSetGzipped t) (gzippedKey page pageSize)
                      gzippedData cacheTTL c1 in
          let data := if gzipped l then gzippedData else data in
          (Write data
             (WriteHeader StatusOK
                (Header_Add "Content-Type" "application/json" (writer l))),
           mkWorld c2 (the_store w) (1 + computed w))
      end
  | Some data =>
      (Write data
         (WriteHeader StatusOK
            (Header_Add "Content-Type" "application/json" (writer l))),
       w)
  end.

Definition serviceStatusesHandler (t : readings) (r : Request) (w : world)
  : ResponseWriter * world :=
  let '(l, w1) := serviceStatusesHandler_lookup (atGet t) r w in
  serviceStatusesHandler_finish t l w1.

(** [serviceStatusHandler], behind [/api/v1/statuses/{key}]. *)
Definition serviceStatusHandler (r : Request) (store : S)
  : ResponseWriter :=
  let '(page, pageSize) := (page r, pageSize r) in
  match GetServiceStatusByKey store (key r) with
  | None =>
      Write (bytes "not found") (WriteHeader StatusNotFound newWriter)
  | Some serviceStatus =>
      let data :=
        Detail (WithResultPagination serviceStatus page pageSize)
          (Events serviceStatus) (Uptime_ serviceStatus) in
      match Marshal data with
      | None =>
          Write (bytes "unable to marshal object to JSON")
            (WriteHeader StatusInternalServerError newWriter)
      | Some output =>
          Write output
            (WriteHeader StatusOK
               (Header_Add "Content-Type" "application/json" newWriter))
      end
  end.

(** *** Callers in flight

    [net/http] runs every request in a goroutine of its own. The cache
    synchronizes each of its operations, and the handler holds nothing
    across them, so a caller can be overtaken between its lookup and the
    rest of the handler, and the watchdog can write to the store in
    between. *)
Inductive caller :=
| Arrived (t : readings) (r : Request)
| Looked (t : readings) (l : looked)
| Answered (response : ResponseWriter).

Inductive action :=
| Advance (i : nat)
| StoreBecomes (store : S).

Definition advance (c : caller) (w : world) : caller * world :=
  match c with
  | Arrived t r =>
      let '(l, w1) := serviceStatusesHandler_lookup (atGet t) r w in
      (Looked t l, w1)
  | Looked t l =>
      let '(response, w1) := serviceStatusesHandler_finish t l w in
      (Answered response, w1)
  | Answered _ => (c, w)
  end.

Definition act (a : action) (st : list caller * world)
  : list caller * world :=
  match a with
  | Advance i =>
      match st.1 !! i with
      | Some c => let '(c', w') := advance c st.2 in (<[i := c']> st.1, w')
      | None => st
      end
  | StoreBecomes store =>
      (st.1, mkWorld (the_cache st.2) store (computed st.2))
  end.

Fixpoint interleave (acts : list action) (st : list caller * world)
  : list caller * world :=
  match acts with
  | [] => st
  | a :: rest => interleave rest (act a st)
  end.

Definition answer_of (c : caller) : option ResponseWriter :=
  match c with Answered response => Some response | _ => None end.

(** Calls that do not overlap: each runs to its end, on the store as it
    is by then, before the next begins. *)
Fixpoint serve (calls : list (readings * S)) (r : Request) (w : world)
  : list ResponseWriter * world :=
  match calls with
  | [] => ([], w)
  | (t, store) :: rest =>
      let '(response, w1) :=
        serviceStatusesHandler t r
          (mkWorld (the_cache w) store (computed w)) in
      let '(responses, w2) := serve rest r w1 in
      (response :: responses, w2)
  end.

(** The key the handler looks up for a request. *)
Definition key_of (r : Request) : string :=
  if Contains (AcceptEncoding r) "gzip"
  then gzippedKey (page r) (pageSize r)
  else plainKey (page r) (pageSize r).

(** The entries a successful miss writes. *)
Definition plainEntry (t : readings) (r : Request) (data : list Byte.byte)
  : Entry :=
  {| Key := plainKey (page r) (pageSize r); Value := data;
     Expiration := atSetPlain t + cacheTTL |}.

Definition gzippedEntry (t : readings) (r : Request)
    (data : list Byte.byte) : Entry :=
  {| Key := gzippedKey (page r) (pageSize r); Value := Gzip data;
     Expiration := atSetGzipped t + cacheTTL |}.

(** The writer after the lookup, and the answers built on it. *)
Definition writer_for (r : Request) : ResponseWriter :=
  if Contains (AcceptEncoding r) "gzip"
  then Header_Set "Content-Encoding" "gzip" newWriter
  else newWriter.

Definition answer_with (r : Request) (sent : list Byte.byte)
  : ResponseWriter :=
  Write sent
    (WriteHeader StatusOK
       (Header_Add "Content-Type" "application/json" (writer_for r))).

(** The answer to a request served from the marshalled [data]. *)
Definition ok_response (r : Request) (data : list Byte.byte)
  : ResponseWriter :=
  answer_with r
    (if Contains (AcceptEncoding r) "gzip" then Gzip data else data).

Definition failure_response (r : Request) : ResponseWriter :=
  Write (bytes "Unable to marshal object to JSON")
    (WriteHeader StatusInternalServerError (writer_for r)).

(** The cache holds both encodings of [data] as a successful miss at [t]
    wrote them. *)
Definition holds_both (c : Cache) (t : readings) (r : Request)
    (data : list Byte.byte) : Prop :=
  evictionPolicy c = FirstInFirstOut /\
  get (plainKey (page r) (pageSize r)) c = Some (plainEntry t r data) /\
  get (gzippedKey (page r) (pageSize r)) c
  = Some (gzippedEntry t r data).

(** A call at [t'] looks the cache up before the entries written at [t]
    expire. *)
Definition within_ttl (t t' : readings) : Prop :=
  atGet t' <= atSetPlain t + cacheTTL /\
  atGet t' <= atSetGzipped t + cacheTTL.

(** The cache after janitor passes at the clock readings [passes], the
    last one first. *)
Definition swept (passes : list (Z * (Entry -> bool))) (c : Cache) : Cache :=
  foldr (fun pass c => Janitor_pass pass.1 pass.2 c) c passes.

(** The cache after a successful miss. *)
Definition filled (t : readings) (r : Request) (data : list Byte.byte)
    (c : Cache) : Cache :=
  SetWithTTL (atSetGzipped t) (gzippedKey (page r) (pageSize r))
    (Gzip data) cacheTTL
    (SetWithTTL (atSetPlain t) (plainKey (page r) (pageSize r))
       data cacheTTL c).

End Handlers.

Arguments world : clear implicits.
Arguments action : clear implicits.

(** The cache as the package creates it, whatever it holds by now. *)
Definition configured (c : Cache) : Prop :=
  maxSize c = 999999 /\ evictionPolicy c = FirstInFirstOut.

(** *** Stand-ins to run the handlers on

    An encoder that writes, for every service, its key and how many results
    it has, and that refuses a status with more events than results; a
    compressor that only puts the gzip magic number in front. *)
Definition sample_line (kv : string * ServiceStatus) : string :=
  kv.1 +:+ ":" +:+ pretty (length (Results kv.2)) +:+ ";".

Definition encodable (ss : ServiceStatus) : bool :=
  bool_decide (length (Events ss) <= length (Results ss))%nat.

Definition sample_Marshal (p : payload) : option (list Byte.byte) :=
  match p with
  | Statuses all =>
      if forallb (fun kv => encodable kv.2) (map_to_list all)
      then Some (bytes (String.concat "" (map sample_line (map_to_list all))))
      else None
  | Detail serviceStatus events uptime =>
      if encodable serviceStatus
      then Some (bytes (pretty (length (Results serviceStatus))))
      else None
  end.

Definition sample_Encoder : Encoder :=
  {| Marshal := sample_Marshal;
     Gzip data := [Byte.x1f; Byte.x8b] ++ data |}.

Definition one_result : ServiceStatus :=
  {| Results := [mkResult 200 true [] 1000]; Events := []; Uptime_ := [] |}.

Definition two_results : ServiceStatus :=
  {| Results := [mkResult 200 true [] 1000; mkResult 503 false [] 2000];
     Events := [mkEvent Unhealthy 5]; Uptime_ := [] |}.

Definition broken : ServiceStatus :=
  {| Results := []; Events := [mkEvent Healthy 1]; Uptime_ := [] |}.

Definition store_before : memory := {[ "core_frontend" := one_result ]}.
Definition store_after : memory := {[ "core_frontend" := two_results ]}.
Definition store_broken : memory := {[ "core_frontend" := broken ]}.

Definition first_page : Request :=
  {| AcceptEncoding := ""; page := 1; pageSize := 20; key := "" |}.

Definition first_page_gzipped : Request :=
  {| AcceptEncoding := "gzip, deflate, br"; page := 1; pageSize := 20;
     key := "" |}.

Definition at_second (n : Z) : readings :=
  {| atGet := n * Time.Second; atSetPlain := n * Time.Second + 1;
     atSetGzipped := n * Time.Second + 2 |}.

Definition fresh (store : memory) : world memory :=
  {| the_cache := cache; the_store := store; computed := 0 |}.

Definition unknown_service : Request :=
  {| AcceptEncoding := "gzip"; page := 1; pageSize := 20;
     key := "core_backend" |}.

(** What the stand-in encoder makes of [store_before]. *)
Definition encoded_before : list Byte.byte := bytes "core_frontend:1;".




End Controller.

(** ** Package client *)

Module Client.

(** The fields of [tls.Config], [http.Transport] and [http.Client] that
    [GetHTTPClient] sets. *)
Record tlsConfig := mkTlsConfig {
  InsecureSkipVerify : bool
}.

Inductive proxy := ProxyFromEnvironment.

Record Transport := mkTransport {
  MaxIdleConns : Z;
  MaxIdleConnsPerHost : Z;
  Proxy : proxy;
  TLSClientConfig : option tlsConfig
}.

Record HTTPClient := mkHTTPClient {
  Timeout : Z;
  Transport_ : Transport
}.

(** A [*http.Client] is the position of the client in the heap. *)
Definition pointer := nat.

(** The package-level variables and the clients allocated so far. *)
Record state := mkState {
  heap : list HTTPClient;
  secureHTTPClient : option pointer;
  insecureHTTPClient : option pointer;
  pingTimeout : Z;
  httpTimeout : Z
}.

Definition initial : state :=
  {| heap := []; secureHTTPClient := None; insecureHTTPClient := None;
     pingTimeout := 5 * Time.Second; httpTimeout := 10 * Time.Second |}.

(** [&http.Client{...}] *)
Definition new (c : HTTPClient) (st : state) : pointer * list HTTPClient :=
  (length (heap st), heap st ++ [c]).

Definition GetHTTPClient (insecure : bool) (st : state) : pointer * state :=
  if insecure then
    match insecureHTTPClient st with
    | None =>
        let '(p, h) :=
          new {| Timeout := httpTimeout st;
                 Transport_ :=
                   {| MaxIdleConns := 100;
                      MaxIdleConnsPerHost := 20;
                      Proxy := ProxyFromEnvironment;
                      TLSClientConfig :=
                        Some {| InsecureSkipVerify := true |} |} |} st in
        (p, {| heap := h; secureHTTPClient := secureHTTPClient st;
               insecureHTTPClient := Some p;
               pingTimeout := pingTimeout st;
               httpTimeout := httpTimeout st |})
    | Some p => (p, st)
    end
  else
    match secureHTTPClient st with
    | None =>
        let '(p, h) :=
          new {| Timeout := httpTimeout st;
                 Transport_ :=
                   {| MaxIdleConns := 100;
                      MaxIdleConnsPerHost := 20;
                      Proxy := ProxyFromEnvironment;
                      TLSClientConfig := None |} |} st in
        (p, {| heap := h; secureHTTPClient := Some p;
               insecureHTTPClient := insecureHTTPClient st;
               pingTimeout := pingTimeout st;
               httpTimeout := httpTimeout st |})
    | Some p => (p, st)
    end.

(** A client skips the verification of certificates when its transport has
    a TLS configuration that says so; without one the default verifies. *)
Definition skips_verification (c : HTTPClient) : bool :=
  match TLSClientConfig (Transport_ c) with
  | Some cfg => InsecureSkipVerify cfg
  | None => false
  end.

(** Successive calls, one after the other. *)
Fixpoint calls (flags : list bool) (st : state) : list pointer * state :=
  match flags with
  | [] => ([], st)
  | insecure :: rest =>
      let '(p, st1) := GetHTTPClient insecure st in
      let '(ps, st2) := calls rest st1 in
      (p :: ps, st2)
  end.

(** The variable that holds the client for a flag. *)
Definition shared (insecure : bool) (st : state) : option pointer :=
  if insecure then insecureHTTPClient st else secureHTTPClient st.

(** The shared clients exist and are configured as their name says. *)
Definition well_formed (st : state) : Prop :=
  forall insecure p,
    shared insecure st = Some p ->
    exists c, heap st !! p = Some c /\ skips_verification c = insecure.

(** *** Ping *)

(** A [float64], as far as it is compared: not a number, an infinity, or the
    rational it stands for. *)
Inductive float64 :=
| NaN
| Infinity (negative : bool)
| Finite (q : Q).

(** [x == y] on [float64] *)
Definition float64_eq (x y : float64) : bool :=
  match x, y with
  | Finite p, Finite q => Qeq_bool p q
  | Infinity a, Infinity b => Bool.eqb a b
  | _, _ => false
  end.

(** [x < y] on [float64] *)
Definition float64_lt (x y : float64) : bool :=
  match x, y with
  | Finite p, Finite q => negb (Qle_bool q p)
  | Infinity true, Finite _ | Finite _, Infinity false
  | Infinity true, Infinity false => true
  | _, _ => false
  end.

Definition hundred : float64 := Finite (100 # 1).

Record Statistics := mkStatistics {
  PacketsSent : Z;
  PacketsRecv : Z;
  PacketLoss : float64;
  MaxRtt : Z
}.

(** The fields of [ping.Pinger] that [Ping] sets. *)
Record Pinger := mkPinger {
  addr : string;
  Count : Z;
  Timeout_ : Z;
  network : string;
  privileged : bool
}.

(** How a run of a pinger ends: with an error, or normally, after which
    [pinger.Statistics()] is what [statistics] says (nil is [None]). *)
Inductive ran :=
| RunError
| Ran (statistics : option Statistics).

(** Package [ping]: [NewPinger] ([None] is a non-nil [err]) and [Run]. *)
Class ICMP := {
  NewPinger : string -> option Pinger;
  Run : Pinger -> ran
}.

Definition SetCount (n : Z) (p : Pinger) : Pinger :=
  {| addr := addr p; Count := n; Timeout_ := Timeout_ p;
     network := network p; privileged := privileged p |}.

Definition SetTimeout (d : Z) (p : Pinger) : Pinger :=
  {| addr := addr p; Count := Count p; Timeout_ := d;
     network := network p; privileged := privileged p |}.

Definition SetNetwork (n : string) (p : Pinger) : Pinger :=
  {| addr := addr p; Count := Count p; Timeout_ := Timeout_ p;
     network := n; privileged := privileged p |}.

Definition SetPrivileged (b : bool) (p : Pinger) : Pinger :=
  {| addr := addr p; Count := Count p; Timeout_ := Timeout_ p;
     network := network p; privileged := b |}.

(** The pinger as [Ping] runs it. *)
Definition prepared (st : state) (pinger : Pinger) : Pinger :=
  SetPrivileged true
    (SetNetwork "ip4" (SetTimeout (pingTimeout st) (SetCount 1 pinger))).

Definition Ping {icmp : ICMP} (st : state) (address : string) : bool * Z :=
  match NewPinger address with
  | None => (false, 0)
  | Some pinger =>
      let pinger := prepared st pinger in
      match Run pinger with
      | RunError => (false, 0)
      | Ran (Some statistics) =>
          if float64_eq (PacketLoss statistics) hundred
          then (false, Timeout_ pinger)
          else (true, MaxRtt statistics)
      | Ran None => (true, 0)
      end
  end.

(** *** Stand-ins for the network *)

Definition blank (address : string) : Pinger :=
  {| addr := address; Count := -1; Timeout_ := 0; network := "ip";
     privileged := false |}.

(** A pinger library whose run ends normally and reports no statistics. *)
Definition no_statistics : ICMP :=
  {| NewPinger address := Some (blank address); Run _ := Ran None |}.

(** A run after which no packet counts as sent: the loss is 0/0. *)
Definition nothing_sent : ICMP :=
  {| NewPinger address := Some (blank address);
     Run _ := Ran (Some {| PacketsSent := 0; PacketsRecv := 0;
                           PacketLoss := NaN; MaxRtt := 0 |}) |}.

(** A host that answers the one packet in 20 ms, and one that does not. *)
Definition reachable : ICMP :=
  {| NewPinger address := Some (blank address);
     Run _ := Ran (Some {| PacketsSent := 1; PacketsRecv := 1;
                           PacketLoss := Finite (0 # 1);
                           MaxRtt := 20 * Time.Millisecond |}) |}.

Definition unreachable : ICMP :=
  {| NewPinger address := Some (blank address);
     Run _ := Ran (Some {| PacketsSent := 1; PacketsRecv := 0;
                           PacketLoss := Finite (100 # 1); MaxRtt := 0 |}) |}.

End Client.

(** ** Package client, continued: calls to [GetHTTPClient] in flight *)

Module ClientCalls.
Import Client.

(** [GetHTTPClient] takes no lock, and the goroutines of the watchdog call
    it while they evaluate their services. Between the test of the package
    variable, the assignment to it and the [return] that reads it again,
    another goroutine may run. The program points of one call: *)
Inductive call :=
| AtTest (insecure : bool)
| AtAssign (insecure : bool)
| AtReturn (insecure : bool)
| Returned (p : option pointer).









End ClientCalls.

(** ** Package watchdog, continued: views of the process *)

Module WatchdogViews.
Import Core Watchdog.

(** The mutex operations and the sleeps. *)
Definition is_lock_or_sleep (e : event) : bool :=
  match e with EvLock | EvUnlock | EvSleep _ => true | _ => false end.

(** What the mutex and the interval sleep look like in one iteration. *)
Definition locked_then_slept (service : Service) : list event :=
  [EvLock; EvUnlock; EvSleep (Interval service)].

(** Goroutine [i] is not blocked in [s]: scheduling it changes where it
    stands, whatever the evaluation would return. *)
Definition can_step (cfg : Config) (i : nat) (s : sys) : Prop :=
  forall answer, pcs (step cfg i answer s) !! i <> pcs s !! i.

(** How many steps of its own a goroutine standing at [p] inside the
    critical section takes until [monitoringMutex.Unlock()] has returned. *)
Definition steps_to_unlock (p : pc) : nat :=
  match p with
  | AtLock => 0
  | AtDebugMonitoring => 9
  | AtEvaluate => 8
  | Evaluating => 7
  | AtPublish _ => 6
  | AtUpdate _ => 5
  | AtLogMonitored _ => 4
  | AtAlerting _ => 3
  | AtDebugWaiting _ => 2
  | AtUnlock _ => 1
  | AtSleep _ => 0
  end.

(** How often a schedule lets goroutine [i] take a step. *)
Definition turns (i : nat) (sched : schedule) : nat :=
  count (fun x => bool_decide (x.1 = i)) sched.

(** What [monitoringMutex.Lock()] at the head of the loop does to the
    process when goroutine [i] is scheduled there: nothing while the mutex
    is held, and otherwise the mutex is taken. *)
Definition lock_attempt (i : nat) (s : sys) : sys :=
  if locked s then s
  else {| locked := true; fatal := false;
          pcs := <[i := AtDebugMonitoring]> (pcs s);
          trace := trace s ++ [(i, EvLock)] |}.

(** The first goroutine is scheduled through its first evaluation, the
    second one is let in between, and the first one goes on to its sleep. *)
Definition first_then_waiting : schedule :=
  [(0%nat, healthy); (0%nat, healthy); (0%nat, healthy); (1%nat, failing)].

Definition first_finishes : schedule :=
  [(0%nat, healthy); (1%nat, failing); (0%nat, healthy); (0%nat, healthy);
   (1%nat, failing); (0%nat, healthy); (0%nat, healthy); (0%nat, healthy);
   (1%nat, failing); (0%nat, healthy)].

End WatchdogViews.

(** ** Package strconv: [Atoi], and package client, continued: [init] *)

Module Strconv.

Definition digit_value (c : Ascii.ascii) : option N :=
  let n := Ascii.N_of_ascii c in
  if (48 <=? n)%N && (n <=? 57)%N then Some (n - 48)%N else None.

(** The value of a run of decimal digits, read after [acc]. *)
Fixpoint digits (s : string) (acc : N) : option N :=
  match s with
  | EmptyString => Some acc
  | String c rest =>
      match digit_value c with
      | Some d => digits rest (acc * 10 + d)%N
      | None => None
      end
  end.

(** The characters ['-'] and ['+']. *)
Definition minus : Ascii.ascii := Ascii.ascii_of_nat 45.
Definition plus : Ascii.ascii := Ascii.ascii_of_nat 43.

(** A leading sign and what follows it. *)
Definition split_sign (s : string) : bool * string :=
  match s with
  | String c rest =>
      if Ascii.eqb c minus then (true, rest)
      else if Ascii.eqb c plus then (false, rest)
      else (false, s)
  | EmptyString => (false, s)
  end.

Definition all_digits (s : string) : bool :=
  forallb (fun c => bool_decide (is_Some (digit_value c)))
    (String.list_ascii_of_string s).

(** [strconv.Atoi] on a 64-bit platform; [None] is a non-nil [err] (a syntax
    error, or a value outside [int]). *)
Definition Atoi (s : string) : option Z :=
  let '(negative, body) := split_sign s in
  match body with
  | EmptyString => None
  | _ =>
      match digits body 0 with
      | Some n =>
          let z := if negative then - Z.of_N n else Z.of_N n in
          if (- 2 ^ 63 <=? z) && (z <? 2 ^ 63) then Some z else None
      | None => None
      end
  end.

(** [strconv.Itoa] *)
Definition Itoa (z : Z) : string := pretty z.

End Strconv.

Module ClientInit.
Import Client.

(** Multiplication of two [int64], as [time.Duration] does it. *)
Definition wrap64 (z : Z) : Z := (z + 2 ^ 63) mod 2 ^ 64 - 2 ^ 63.

Definition set_httpTimeout (d : Z) (st : state) : state :=
  {| heap := heap st; secureHTTPClient := secureHTTPClient st;
     insecureHTTPClient := insecureHTTPClient st;
     pingTimeout := pingTimeout st; httpTimeout := d |}.

(** [init], given [os.Getenv]. *)
Definition init (Getenv : string -> string) (st : state) : state :=
  let httpTimeoutInSecondsFromEnvironmentVariable :=
    Getenv "HTTP_CLIENT_TIMEOUT_IN_SECONDS" in
  if (0 <? String.length httpTimeoutInSecondsFromEnvironmentVariable)%nat
  then
    match Strconv.Atoi httpTimeoutInSecondsFromEnvironmentVariable with
    | Some httpTimeoutInSeconds =>
        set_httpTimeout (wrap64 (httpTimeoutInSeconds * Time.Second)) st
    | None => st
    end
  else st.

(** The package once loaded: its variables initialised, then [init]. *)
Definition loaded (Getenv : string -> string) : state := init Getenv initial.

(** The shared clients are distinct, are all there is in the heap, and carry
    the time-out [d]. *)
Definition tidy (d : Z) (st : state) : Prop :=
  httpTimeout st = d /\
  (forall c, c ∈ heap st -> Timeout c = d) /\
  length (heap st)
  = ((if secureHTTPClient st is Some _ then 1 else 0)
     + (if insecureHTTPClient st is Some _ then 1 else 0))%nat /\
  (forall insecure p, shared insecure st = Some p ->
                      (p < length (heap st))%nat) /\
  (forall p q, shared true st = Some p -> shared false st = Some q -> p <> q).

(** An environment with one variable set. *)
Definition setenv (name value : string) : string -> string :=
  fun asked => if decide (asked = name) then value else "".

End ClientInit.

(** ** Package metric *)

Module Metric.

(** [prometheus.GaugeOpts], as far as the code fills it in. *)
Record GaugeOpts := mkGaugeOpts {
  Subsystem : string;
  Name : string;
  ConstLabels : gmap string string
}.

#[export] Instance GaugeOpts_eq_dec : EqDecision GaugeOpts.
Proof. solve_decision. Defined.

(** A [*prometheus.GaugeVec]: what it was made with and the value of the
    gauge of each combination of label values. A gauge is a [float64] that
    [Inc] adds one to, here the number of increments. *)
Record GaugeVec := mkGaugeVec {
  opts : GaugeOpts;
  labelNames : list string;
  values : gmap (list string) nat
}.

(** The package variable [gauges], the collectors registered with the
    default registry, oldest first, and whether a call has panicked. *)
Record state := mkState {
  gauges : gmap string GaugeVec;
  registry : list GaugeOpts;
  panicked : bool
}.

Definition initial : state :=
  {| gauges := ∅; registry := []; panicked := false |}.

(** [promauto.NewGaugeVec]: the new vector is registered, and the call panics
    when the registry already holds a collector of the same name with the
    same constant labels. *)
Definition NewGaugeVec (o : GaugeOpts) (names : list string) (st : state)
  : option GaugeVec * state :=
  if bool_decide (o ∈ registry st)
  then (None, {| gauges := gauges st; registry := registry st;
                 panicked := true |})
  else (Some {| opts := o; labelNames := names; values := ∅ |},
        {| gauges := gauges st; registry := registry st ++ [o];
           panicked := panicked st |}).

(** [gauge.WithLabelValues(lvs...).Inc()] *)
Definition Inc (lvs : list string) (g : GaugeVec) : GaugeVec :=
  {| opts := opts g; labelNames := labelNames g;
     values := <[lvs := Datatypes.S (default 0%nat (values g !! lvs))]>
                 (values g) |}.

(** [strconv.FormatBool] *)
Definition FormatBool (b : bool) : string := if b then "true" else "false".

(** [fmt.Sprintf("%s_%s", service.Name, service.URL)] *)
Definition gaugeKey (service : Core.Service) : string :=
  Core.Name service +:+ "_" +:+ Core.URL service.

Definition gaugeOpts (service : Core.Service) : GaugeOpts :=
  {| Subsystem := "gatus";
     Name := "tasks";
     ConstLabels := {[ "service" := Core.Name service;
                       "url" := Core.URL service ]} |}.

Definition labelValues (result : Core.Result) : list string :=
  [Strconv.Itoa (Core.HTTPStatus result); FormatBool (Core.Success result)].

Definition set_gauge (key : string) (g : GaugeVec) (st : state) : state :=
  {| gauges := <[key := g]> (gauges st); registry := registry st;
     panicked := panicked st |}.

(** [PublishMetricsForService]. The gauge is a pointer kept in the map, so
    the increment shows in the map. Nothing runs after a panic. *)
Definition PublishMetricsForService (cfg : Core.Config)
    (service : Core.Service) (result : Core.Result) (st : state) : state :=
  if panicked st then st else
  if Core.Metrics cfg then
    let key := gaugeKey service in
    match gauges st !! key with
    | Some gauge => set_gauge key (Inc (labelValues result) gauge) st
    | None =>
        match NewGaugeVec (gaugeOpts service) ["status"; "success"] st with
        | (Some gauge, st1) =>
            let st2 := set_gauge key gauge st1 in
            set_gauge key (Inc (labelValues result) gauge) st2
        | (None, st1) => st1
        end
    end
  else st.

(** A run of publications, first to last. *)
Definition publish_all (cfg : Core.Config)
    (calls : list (Core.Service * Core.Result)) (st : state) : state :=
  foldl (fun st call => PublishMetricsForService cfg call.1 call.2 st)
    st calls.

(** The value of the gauge with label values [lvs] of the vector under
    [key]; 0 when there is none. *)
Definition value (st : state) (key : string) (lvs : list string) : nat :=
  match gauges st !! key with
  | Some g => default 0%nat (values g !! lvs)
  | None => 0%nat
  end.

(** Whether a publication lands on the gauge [lvs] of the vector [key]. *)
Definition lands_on (key : string) (lvs : list string)
    (call : Core.Service * Core.Result) : bool :=
  bool_decide (gaugeKey call.1 = key /\ labelValues call.2 = lvs).

Definition under (key : string) (call : Core.Service * Core.Result) : bool :=
  bool_decide (gaugeKey call.1 = key).

(** No panic so far, and every registered collector is the one of a service
    whose vector is in the map. *)
Definition sound (st : state) : Prop :=
  panicked st = false /\
  NoDup (registry st) /\
  length (registry st) = size (gauges st) /\
  (forall o, o ∈ registry st ->
     exists service, o = gaugeOpts service /\
                     is_Some (gauges st !! gaugeKey service)) /\
  (forall key g, gauges st !! key = Some g -> opts g ∈ registry st).

(** The vector under each key is labelled after the first service published
    under that key. *)
Definition first_labels (calls : list (Core.Service * Core.Result))
    (st : state) : Prop :=
  forall key,
    match gauges st !! key with
    | Some g =>
        exists call, List.find (under key) calls = Some call /\
                     opts g = gaugeOpts call.1
    | None => List.find (under key) calls = None
    end.

(** Two services that differ in name and URL and share a key. *)
Definition shop_api : Core.Service :=
  Core.mkService "shop_api" "core" "v1" 60000000000.

Definition shop : Core.Service :=
  Core.mkService "shop" "core" "api_v1" 60000000000.

Definition metrics_on : Core.Config :=
  {| Core.Services := [shop_api; shop]; Core.DisableMonitoringLock := false;
     Core.Debug := false; Core.Metrics := true |}.

Definition ok : Core.Result := Core.mkResult 200 true [] 1000000.
Definition unavailable : Core.Result := Core.mkResult 503 false [] 1000000.

End Metric.

(** ** Package controller, continued: runs of requests *)

Module ControllerRuns.
Import Core Gocache Storage Controller.

Section Runs.
Context {S : Type} {store_ops : Store S} {encoder : Encoder}.

(** Calls to [serviceStatusesHandler] that do not overlap, each with its
    clock readings, the store as it is by then, and its request. *)
Fixpoint serve_requests (calls : list (readings * S * Request))
    (w : world S) : list ResponseWriter * world S :=
  match calls with
  | [] => ([], w)
  | (t, store, r) :: rest =>
      let '(response, w1) :=
        serviceStatusesHandler t r
          (mkWorld (the_cache w) store (computed w)) in
      let '(responses, w2) := serve_requests rest w1 in
      (response :: responses, w2)
  end.

(** [data] is the marshalling of the statuses of one of [stores] for the
    page and page size. *)
Definition marshalled_from (stores : list S) (page pageSize : Z)
    (data : list Byte.byte) : Prop :=
  exists store,
    store ∈ stores /\
    Marshal (Statuses (GetAllServiceStatusesWithResultPagination
                         store page pageSize)) = Some data.

(** Every entry of the cache is what the handler wrote for some page from
    one of [stores]: the marshalling under the plain key, its compression
    under the gzipped key. *)
Definition sourced (stores : list S) (c : Cache) : Prop :=
  forall e, e ∈ entries c ->
    exists page pageSize data,
      marshalled_from stores page pageSize data /\
      ((Key e = plainKey page pageSize /\ Value e = data) \/
       (Key e = gzippedKey page pageSize /\ Value e = Gzip data)).


(** The headers of an answer with status 200. *)
Definition ok_headers (r : Request) : list (string * string) :=
  (if Contains (AcceptEncoding r) "gzip"
   then [("Content-Encoding", "gzip")] else [])
  ++ [("Content-Type", "application/json")].

End Runs.

(** There is room for two more entries. *)
Definition room (c : Cache) : Prop :=
  Z.of_nat (length (entries c)) + 2 <= maxSize c.

(** *** Samples *)

Definition second_page : Request :=
  {| AcceptEncoding := "gzip"; page := 2; pageSize := 20; key := "" |}.

(** The world after a first call, for the second page. *)
Definition after_second_page : world memory :=
  (serviceStatusesHandler (encoder := sample_Encoder) (at_second 100)
     second_page (fresh store_before)).2.

(** The cache after a first call, for the first page. *)
Definition after_first_page : Cache :=
  the_cache (serviceStatusesHandler (encoder := sample_Encoder)
               (at_second 100) first_page (fresh store_before)).2.

(** What the sample encoder makes of [store_after]. *)
Definition encoded_after : list Byte.byte := bytes "core_frontend:2;".

Definition two_calls : list (readings * memory * Request) :=
  [(at_second 100, store_before, first_page);
   (at_second 105, store_after, first_page_gzipped)].


(** A caller that asks for gzip is overtaken between its lookup and the
    rest of the handler by a caller for the plain encoding, which runs to
    its end; a third caller, for the plain encoding again, arrives three
    seconds later, after the first has finished. *)
Definition three_callers : list caller :=
  [Arrived (at_second 100) first_page_gzipped;
   Arrived (at_second 100) first_page;
   Arrived (at_second 103) first_page].

Definition overtaken : list (action memory) :=
  [Advance 0; Advance 1; Advance 1; StoreBecomes store_after; Advance 0;
   Advance 2; Advance 2].

(** A text made of an optional minus sign and decimal digits, at least
    one. *)
Definition number_text (s : string) : Prop :=
  exists ds, ds <> "" /\ Strconv.all_digits ds = true /\
             (s = ds \/ s = String Strconv.minus ds).

End ControllerRuns.

(** ** Package controller, continued: the server's life cycle *)

Module Lifecycle.

(** [cfg.Web] *)
Record WebConfig := mkWebConfig {
  Address : string;
  Port : Z
}.

(** The [http.Server] that [Handle] creates; [cors] says whether the router
    is wrapped by the development CORS handler. *)
Record Server := mkServer {
  Addr : string;
  cors : bool;
  ReadTimeout : Z;
  WriteTimeout : Z;
  IdleTimeout : Z
}.

Inductive event :=
| ListenAndServe (p : nat)
| ShutdownCalled (p : nat).

(** The servers created so far (a [*http.Server] is a position in this
    list), the package variable [server] and the calls made on servers. *)
Record state := mkState {
  servers : list Server;
  server : option nat;
  events : list event
}.

Definition initial : state := {| servers := []; server := None; events := [] |}.

(** [Handle], up to and including its call of [ListenAndServe] (none when
    ROUTER_TEST is true). *)
Definition Handle (web : WebConfig) (Getenv : string -> string) (st : state)
  : state :=
  let p := length (servers st) in
  let created :=
    {| Addr := Address web +:+ ":" +:+ pretty (Port web);
       cors := bool_decide (Getenv "ENVIRONMENT" = "dev");
       ReadTimeout := 15 * Time.Second;
       WriteTimeout := 15 * Time.Second;
       IdleTimeout := 15 * Time.Second |} in
  {| servers := servers st ++ [created];
     server := Some p;
     events := if bool_decide (Getenv "ROUTER_TEST" = "true")
               then events st
               else events st ++ [ListenAndServe p] |}.

Definition Shutdown (st : state) : state :=
  match server st with
  | Some p =>
      {| servers := servers st; server := None;
         events := events st ++ [ShutdownCalled p] |}
  | None => st
  end.

Inductive op :=
| DoHandle (web : WebConfig) (Getenv : string -> string)
| DoShutdown.

Definition apply (o : op) (st : state) : state :=
  match o with
  | DoHandle web Getenv => Handle web Getenv st
  | DoShutdown => Shutdown st
  end.

Definition run (ops : list op) (st : state) : state :=
  foldl (fun st o => apply o st) st ops.

(** The servers that were shut down, in order. *)
Definition shut_down (st : state) : list nat :=
  omap (fun e => match e with ShutdownCalled p => Some p | _ => None end)
    (events st).

(** Shutdowns only ever hit servers that exist, each once, and the server the
    package still points to is the last one created and is not shut down. *)
Definition orderly (st : state) : Prop :=
  NoDup (shut_down st) /\
  (forall p, p ∈ shut_down st -> (p < length (servers st))%nat) /\
  (forall p, server st = Some p ->
             Datatypes.S p = length (servers st) /\ p ∉ shut_down st).

Definition localhost : WebConfig := {| Address := "0.0.0.0"; Port := 8080 |}.

Definition no_environment : string -> string := fun _ => "".

End Lifecycle.

Module WatchdogFacts.
Import Core Watchdog WatchdogViews.

Lemma keep_app {A} (f : A -> bool) (l1 l2 : list A) :
  keep f (l1 ++ l2) = keep f l1 ++ keep f l2.
Proof.
  induction l1 as [|x l1 IH]; simpl; [done|].
  destruct (f x); simpl; by rewrite IH.
Qed.

Lemma keep_flat_map {A B} (f : B -> bool) (g : A -> list B) (l : list A) :
  keep f (flat_map g l) = flat_map (fun x => keep f (g x)) l.
Proof.
  induction l as [|x l IH]; simpl; [done|].
  by rewrite keep_app, IH.
Qed.

Lemma keep_take {A} (f : A -> bool) (k : nat) (l : list A) :
  exists k', keep f (take k l) = take k' (keep f l).
Proof.
  revert k; induction l as [|x l IH]; intros k.
  - exists 0%nat. by destruct k.
  - destruct k as [|k]; [by exists 0%nat|].
    destruct (IH k) as [k' Hk']. simpl.
    destruct (f x).
    + exists (S k'). simpl. by rewrite Hk'.
    + by exists k'.
Qed.

Lemma count_insert {A} (f : A -> bool) (l : list A) (i : nat) (x y : A) :
  l !! i = Some x ->
  (count f (<[i := y]> l) + (if f x then 1 else 0)
   = count f l + (if f y then 1 else 0))%nat.
Proof.
  revert i; induction l as [|z l IH]; intros i Hi; [done|].
  destruct i as [|i]; simpl in *.
  - injection Hi as ->. lia.
  - specialize (IH i Hi). lia.
Qed.

Lemma count_lookup_pos {A} (f : A -> bool) (l : list A) (i : nat) (x : A) :
  l !! i = Some x -> f x = true -> (1 <= count f l)%nat.
Proof.
  revert i; induction l as [|z l IH]; intros i Hi Hx; [done|].
  destruct i as [|i]; simpl in *.
  - injection Hi as ->. rewrite Hx. lia.
  - specialize (IH i Hi Hx). lia.
Qed.

Lemma count_le {A} (f g : A -> bool) (l : list A) :
  (forall x, f x = true -> g x = true) ->
  (count f l <= count g l)%nat.
Proof.
  intros Hfg. induction l as [|x l IH]; simpl; [lia|].
  specialize (Hfg x). destruct (f x), (g x); try lia.
  all: by specialize (Hfg eq_refl).
Qed.

Lemma count_all_false {A B} (f : A -> bool) (y : A) (l : list B) :
  f y = false -> count f (map (fun _ => y) l) = 0%nat.
Proof. intros Hy. induction l; simpl; rewrite ?Hy; done. Qed.

Lemma events_of_app i tr1 tr2 :
  events_of i (tr1 ++ tr2) = events_of i tr1 ++ events_of i tr2.
Proof. apply omap_app. Qed.

Lemma events_of_cons i j e tr :
  events_of i ((j, e) :: tr)
  = if decide (j = i) then e :: events_of i tr else events_of i tr.
Proof. unfold events_of. simpl. by destruct (decide (j = i)). Qed.

Lemma events_of_same i evs : events_of i (map (pair i) evs) = evs.
Proof.
  induction evs as [|e evs IH]; [done|].
  cbn [map]. rewrite events_of_cons, decide_True by done. by rewrite IH.
Qed.

Lemma events_of_other i j evs :
  j <> i -> events_of i (map (pair j) evs) = [].
Proof.
  intros Hne. induction evs as [|e evs IH]; [done|].
  cbn [map]. by rewrite events_of_cons, decide_False.
Qed.

(** *** The mutex discipline *)

Lemma lock_inv_init cfg : lock_inv (init cfg).
Proof.
  split; [done|]. simpl. by apply count_all_false.
Qed.

Lemma lock_inv_step cfg i answer s :
  DisableMonitoringLock cfg = false ->
  lock_inv s -> lock_inv (step cfg i answer s).
Proof.
  intros Hon [Hfatal Hcount]. unfold step. rewrite Hfatal.
  destruct (Services cfg !! i) as [service|] eqn:Hsvc; [|done].
  destruct (pcs s !! i) as [p|] eqn:Hp; [|done].
  pose proof (count_lookup_pos in_critical _ _ _ Hp) as Hpos.
  destruct p; unfold monitor_step; rewrite ?Hon; simpl;
    try (destruct (locked s) eqn:Hlk; simpl).
  all: unfold lock_inv; simpl; rewrite ?Hlk.
  all: try (split; [done|]).
  all: try done.
  all: try (match goal with
            | Hp : _ !! _ = Some _ |- context [<[_ := ?q]> _] =>
                pose proof (count_insert in_critical _ _ _ q Hp) as Hins
            end; simpl in Hins; lia).
  all: exfalso;
    match goal with
    | Hpos : _ -> (1 <= _)%nat |- _ => specialize (Hpos eq_refl)
    end; lia.
Qed.

Lemma lock_inv_run cfg sched s :
  DisableMonitoringLock cfg = false ->
  lock_inv s -> lock_inv (run cfg sched s).
Proof.
  intros Hon. revert s. induction sched as [|[i answer] sched IH];
    intros s Hs; simpl; [done|].
  apply IH. by apply lock_inv_step.
Qed.

Lemma unlocked_inv_step cfg i answer s :
  DisableMonitoringLock cfg = true ->
  unlocked_inv s -> unlocked_inv (step cfg i answer s).
Proof.
  intros Hoff (Hfatal & Hlk & Htr). unfold step. rewrite Hfatal.
  destruct (Services cfg !! i) as [service|] eqn:Hsvc; [|done].
  destruct (pcs s !! i) as [p|] eqn:Hp; [|done].
  destruct p; unfold monitor_step; rewrite ?Hoff; simpl;
    (split; [done|]; split; [done|]); simpl;
    rewrite keep_app, Htr; simpl; try done;
    by destruct (Debug cfg).
Qed.

Lemma unlocked_inv_run cfg sched s :
  DisableMonitoringLock cfg = true ->
  unlocked_inv s -> unlocked_inv (run cfg sched s).
Proof.
  intros Hoff. revert s. induction sched as [|[i answer] sched IH];
    intros s Hs; simpl; [done|].
  apply IH. by apply unlocked_inv_step.
Qed.

(** *** The shape of a goroutine's trace *)

Lemma monitor_step_before cfg service answer lk p lk' ft p' evs :
  monitor_step cfg service answer lk p = Some (lk', ft, p', evs) ->
  before cfg service p ++ evs = before cfg service p' \/
  exists r, p' = AtLock /\
            before cfg service p ++ evs = iteration cfg service r.
Proof.
  unfold monitor_step, before, iteration, UpdateServiceStatuses.
  destruct p, (DisableMonitoringLock cfg), (Debug cfg), lk; simpl;
    intros H; inversion H; subst; simpl; eauto.
Qed.

Lemma before_prefix cfg service p :
  exists result k,
    before cfg service p = take k (iteration cfg service result).
Proof.
  unfold before, iteration, UpdateServiceStatuses.
  destruct p as [| | | |r|r|r|r|r|r|r];
    [exists (mkResult 0 false [] 0) ..| | | | | | |];
    try exists r;
    destruct (DisableMonitoringLock cfg), (Debug cfg); simpl;
    match goal with
    | |- exists k, ?l = _ => by exists (length l)
    end.
Qed.

Lemma shape_inv_init cfg : shape_inv cfg (init cfg).
Proof.
  split; [apply length_map|].
  intros i service p _ Hp. simpl in Hp.
  rewrite list_lookup_fmap in Hp.
  destruct (Services cfg !! i); [|done]. injection Hp as <-.
  by exists [].
Qed.

Lemma shape_inv_step cfg j answer s :
  shape_inv cfg s -> shape_inv cfg (step cfg j answer s).
Proof.
  intros [Hlen Hshape]. unfold step.
  destruct (fatal s); [done|].
  destruct (Services cfg !! j) as [sj|] eqn:Hsj; [|done].
  destruct (pcs s !! j) as [pj|] eqn:Hpj; [|done].
  destruct (monitor_step cfg sj answer (locked s) pj)
    as [[[[lk ft] p'] evs]|] eqn:Hstep; [|done].
  split; simpl; [by rewrite length_insert|].
  intros i service p Hsvc Hp. rewrite events_of_app.
  destruct (decide (j = i)) as [->|Hne].
  - rewrite list_lookup_insert_eq in Hp by (by eapply lookup_lt_Some).
    injection Hp as <-. rewrite Hsj in Hsvc. injection Hsvc as <-.
    destruct (Hshape _ _ _ Hsj Hpj) as [results Hev].
    rewrite events_of_same, Hev, <- app_assoc.
    destruct (monitor_step_before _ _ _ _ _ _ _ _ _ Hstep)
      as [->|(r & -> & ->)].
    + by exists results.
    + exists (results ++ [r]).
      rewrite flat_map_app. simpl. by rewrite !app_nil_r.
  - rewrite list_lookup_insert_ne in Hp by done.
    rewrite events_of_other, app_nil_r by done. eauto.
Qed.

Lemma shape_inv_run cfg sched s :
  shape_inv cfg s -> shape_inv cfg (run cfg sched s).
Proof.
  revert s. induction sched as [|[i answer] sched IH];
    intros s Hs; simpl; [done|].
  apply IH. by apply shape_inv_step.
Qed.

Lemma run_follows_loop cfg sched i service :
  Services cfg !! i = Some service ->
  follows_loop cfg service (events_of i (trace (run cfg sched (init cfg)))).
Proof.
  intros Hsvc.
  destruct (shape_inv_run cfg sched _ (shape_inv_init cfg)) as [Hlen Hshape].
  destruct (pcs (run cfg sched (init cfg)) !! i) as [p|] eqn:Hp.
  - destruct (Hshape _ _ _ Hsvc Hp) as [results Hev].
    destruct (before_prefix cfg service p) as (result & k & Hk).
    exists results, result, k. by rewrite Hev, Hk.
  - apply lookup_ge_None in Hp. apply lookup_lt_Some in Hsvc. lia.
Qed.

(** *** One iteration run alone *)

Lemma step_stands_at cfg i service answer s p lk tr lk' p' evs :
  Services cfg !! i = Some service ->
  stands_at s i p lk tr ->
  monitor_step cfg service answer lk p = Some (lk', false, p', evs) ->
  stands_at (step cfg i answer s) i p' lk' (tr ++ map (pair i) evs).
Proof.
  intros Hsvc (Hfatal & Hlk & Hp & Htr) Hstep.
  unfold step. rewrite Hfatal, Hsvc, Hp, Hlk, Hstep.
  repeat split; simpl; [|by rewrite Htr].
  apply list_lookup_insert_eq. by eapply lookup_lt_Some.
Qed.

Lemma iteration_alone cfg i service answer s tr :
  Services cfg !! i = Some service ->
  stands_at s i AtLock false tr ->
  stands_at (run cfg (replicate 11 (i, answer)) s) i AtLock false
    (tr ++ map (pair i) (iteration cfg service answer)).
Proof.
  intros Hsvc Hs. simpl.
  assert (forall s p lk tr lk' p' evs,
    stands_at s i p lk tr ->
    monitor_step cfg service answer lk p = Some (lk', false, p', evs) ->
    stands_at (step cfg i answer s) i p' lk' (tr ++ map (pair i) evs))
    as Hnext by (intros; by eapply step_stands_at).
  unfold iteration, UpdateServiceStatuses.
  destruct (DisableMonitoringLock cfg) eqn:Hoff, (Debug cfg) eqn:Hdbg.
  all: do 11 (eapply Hnext in Hs;
              [|unfold monitor_step; rewrite ?Hoff, ?Hdbg; reflexivity]).
  all: simpl in Hs; rewrite <- ?app_assoc in Hs; simpl in Hs.
  all: exact Hs.
Qed.

(** *** The staggered start *)

Lemma Monitor_range_started services lates l :
  started (Monitor_range services lates l)
  = started l ++ zip services (launch_times (length services) lates (clock l)).
Proof.
  revert lates l. induction services as [|service rest IH];
    intros lates l; simpl; [by rewrite app_nil_r|].
  rewrite IH. simpl. by rewrite <- app_assoc.
Qed.

Lemma Monitor_range_did services lates l :
  did (Monitor_range services lates l)
  = did l ++ flat_map (fun s => [EvSleep startDelay; EvGo s]) services.
Proof.
  revert lates l. induction services as [|service rest IH];
    intros lates l; simpl; [by rewrite app_nil_r|].
  rewrite IH. simpl. by rewrite <- !app_assoc.
Qed.

Lemma length_launch_times n lates c :
  length (launch_times n lates c) = n.
Proof.
  revert lates c. induction n as [|n IH]; intros; simpl; [done|].
  by rewrite IH.
Qed.

Lemma launch_times_lower n lates c k t :
  launch_times n lates c !! k = Some t ->
  c + startDelay * (Z.of_nat k + 1) <= t.
Proof.
  revert lates c k. induction n as [|n IH]; intros lates c k Hk; [done|].
  assert (0 <= startDelay) by (by vm_compute).
  destruct k as [|k]; simpl in Hk.
  - injection Hk as <-. lia.
  - apply IH in Hk. lia.
Qed.

Lemma launch_times_gap n lates c i j ti tj :
  launch_times n lates c !! i = Some ti ->
  launch_times n lates c !! j = Some tj ->
  (i < j)%nat ->
  ti + startDelay * (Z.of_nat j - Z.of_nat i) <= tj.
Proof.
  revert lates c i j. induction n as [|n IH]; intros lates c i j Hi Hj Hij;
    [done|].
  destruct j as [|j]; [lia|]. simpl in Hj.
  destruct i as [|i]; simpl in Hi.
  - injection Hi as <-. apply launch_times_lower in Hj. lia.
  - pose proof (IH _ _ _ _ Hi Hj). lia.
Qed.

Lemma follows_loop_keep f cfg service evs (pat : Result -> list event) :
  (forall r, keep f (iteration cfg service r) = pat r) ->
  follows_loop cfg service evs ->
  exists results result k,
    keep f evs = flat_map pat results ++ take k (pat result).
Proof.
  intros Hpat (results & result & k & ->).
  destruct (keep_take f k (iteration cfg service result)) as [k' Hk'].
  exists results, result, k'.
  rewrite keep_app, keep_flat_map, Hk', Hpat.
  f_equal. apply flat_map_ext. intros r. apply Hpat.
Qed.

Lemma iteration_forwarding cfg service r :
  keep is_forwarding (iteration cfg service r) = forwarding service r.
Proof.
  unfold iteration. by destruct (DisableMonitoringLock cfg), (Debug cfg).
Qed.

Lemma iteration_guarded cfg service r :
  DisableMonitoringLock cfg = false ->
  keep is_guarded (iteration cfg service r) = guarded service r.
Proof. unfold iteration. intros ->. by destruct (Debug cfg). Qed.

(** *** The holder of the mutex releases it *)

Lemma step_frame cfg j answer s :
  exists evs,
    trace (step cfg j answer s) = trace s ++ evs /\
    length (pcs (step cfg j answer s)) = length (pcs s) /\
    forall i, i <> j -> pcs (step cfg j answer s) !! i = pcs s !! i.
Proof.
  unfold step.
  destruct (fatal s); [exists []; by rewrite app_nil_r|].
  destruct (Services cfg !! j) as [service|];
    [|exists []; by rewrite app_nil_r].
  destruct (pcs s !! j) as [p|]; [|exists []; by rewrite app_nil_r].
  destruct (monitor_step cfg service answer (locked s) p)
    as [[[[lk ft] p'] evs]|]; [|exists []; by rewrite app_nil_r].
  exists (map (pair j) evs). simpl.
  split; [done|]. split; [by rewrite length_insert|].
  intros i Hne. by rewrite list_lookup_insert_ne.
Qed.

Lemma critical_step cfg service answer p :
  DisableMonitoringLock cfg = false ->
  in_critical p = true ->
  (exists r, p = AtUnlock r /\
     monitor_step cfg service answer true p
     = Some (false, false, AtSleep r, [EvUnlock])) \/
  (exists p' evs,
     monitor_step cfg service answer true p = Some (true, false, p', evs) /\
     in_critical p' = true /\
     steps_to_unlock p = S (steps_to_unlock p')).
Proof.
  intros Hon Hcs.
  destruct p; try discriminate; unfold monitor_step; rewrite ?Hon; simpl;
    eauto 10.
Qed.

Lemma holder_releases cfg i more :
  DisableMonitoringLock cfg = false ->
  forall s p,
    lock_inv s -> length (pcs s) = length (Services cfg) ->
    pcs s !! i = Some p -> in_critical p = true ->
    (steps_to_unlock p <= turns i more)%nat ->
    exists k earlier result,
      (k <= length more)%nat /\
      locked (run cfg (take k more) s) = false /\
      pcs (run cfg (take k more) s) !! i = Some (AtSleep result) /\
      trace (run cfg (take k more) s) = trace s ++ earlier ++ [(i, EvUnlock)].
Proof.
  intros Hon. induction more as [|[j answer] more IH];
    intros s p Hinv Hlen Hp Hcs Hturns.
  - destruct p; try discriminate Hcs; cbn in Hturns; lia.
  - unfold turns in Hturns. cbn [count fst] in Hturns.
    fold (turns i more) in Hturns.
    destruct (step_frame cfg j answer s) as (evs & Htr & Hlen' & Hother).
    pose proof (lock_inv_step cfg j answer s Hon Hinv) as Hinv'.
    destruct (decide (j = i)) as [->|Hne].
    + rewrite bool_decide_eq_true_2 in Hturns by done.
      destruct Hinv as [Hfatal Hcount].
      pose proof (count_lookup_pos in_critical _ _ _ Hp Hcs) as Hpos.
      destruct (locked s) eqn:Hlk; [|lia].
      destruct (Services cfg !! i) as [service|] eqn:Hsvc.
      2: { apply lookup_ge_None in Hsvc. apply lookup_lt_Some in Hp. lia. }
      assert (stands_at s i p true (trace s)) as Hs by done.
      destruct (critical_step cfg service answer p Hon Hcs)
        as [(r & -> & Hstep)|(p' & evs' & Hstep & Hcs' & Hrank)].
      * destruct (step_stands_at _ _ _ _ _ _ _ _ _ _ _ Hsvc Hs Hstep)
          as (_ & Hlk1 & Hp1 & Htr1).
        exists 1%nat, [], r. cbn [take run length].
        split; [lia|]. by rewrite take_0.
      * destruct (step_stands_at _ _ _ _ _ _ _ _ _ _ _ Hsvc Hs Hstep)
          as (_ & Hlk1 & Hp1 & Htr1).
        destruct (IH _ p' Hinv' ltac:(congruence) Hp1 Hcs' ltac:(lia))
          as (k & earlier & result & Hk & Hlk2 & Hp2 & Htr2).
        exists (S k), (map (pair i) evs' ++ earlier), result.
        cbn [take run length]. split; [lia|]. split; [done|]. split; [done|].
        by rewrite Htr2, Htr1, <- !app_assoc.
    + rewrite bool_decide_eq_false_2 in Hturns by done.
      rewrite <- (Hother i) in Hp by done.
      destruct (IH _ p Hinv' ltac:(congruence) Hp Hcs ltac:(lia))
        as (k & earlier & result & Hk & Hlk2 & Hp2 & Htr2).
      exists (S k), (evs ++ earlier), result.
      cbn [take run length]. split; [lia|]. split; [done|]. split; [done|].
      by rewrite Htr2, Htr, <- !app_assoc.
Qed.

Lemma step_at_lock cfg i answer s :
  DisableMonitoringLock cfg = false ->
  fatal s = false -> length (pcs s) = length (Services cfg) ->
  pcs s !! i = Some AtLock ->
  step cfg i answer s = lock_attempt i s.
Proof.
  intros Hon Hfatal Hlen Hp. unfold step, lock_attempt.
  rewrite Hfatal, Hp.
  destruct (Services cfg !! i) as [service|] eqn:Hsvc.
  2: { apply lookup_ge_None in Hsvc. apply lookup_lt_Some in Hp. lia. }
  unfold monitor_step. rewrite Hon. by destruct (locked s).
Qed.

(** *** The process on a small configuration *)

(** While the first goroutine holds the mutex the second stays at its
    [Lock], however often it is scheduled. *)
Example second_goroutine_waits :
  locked (run serialized contended (init serialized)) = true /\
  pcs (run serialized contended (init serialized)) !! 1%nat = Some AtLock /\
  events_of 1 (trace (run serialized contended (init serialized))) = [].
Proof. by vm_compute. Qed.

(** Without the mutex two evaluations do overlap. *)
Example evaluations_overlap_without_lock :
  count is_evaluating
    (pcs (run unserialized
            [(0%nat, healthy); (0%nat, healthy); (0%nat, healthy);
             (1%nat, failing); (1%nat, failing); (1%nat, failing)]
            (init unserialized))) = 2%nat.
Proof. reflexivity. Qed.

(** *** The claims about the watchdog *)

(** C2. When [DisableMonitoringLock] is false, in every state the process
    can reach at most one goroutine is inside [EvaluateHealth], the mutex
    is never unlocked while free, and the events of every goroutine,
    restricted to the lock, the evaluation and the alert handling, repeat
    the pattern Lock, evaluate, HandleAlerting, Unlock: the lock is taken
    before the evaluation and released only after alert handling. The
    mutex is held exactly while one goroutine is between its Lock and its
    Unlock; a goroutine scheduled at its Lock takes the mutex when it is
    free and stays where it is while it is held; and the lock is released:
    whatever the other goroutines do, once the holder has been scheduled
    often enough to reach the end of its iteration (nine steps from the
    Lock) there is a moment at which its last event is the Unlock, the
    mutex is free and the holder stands at its sleep. An iteration that
    runs alone takes the lock first, handles alerting, releases the lock
    and leaves the mutex free. When the toggle is true, no goroutine ever
    locks or unlocks the mutex. *)
Theorem monitoring_lock_serializes (cfg : Config) (sched : schedule) :
  let s := run cfg sched (init cfg) in
  (DisableMonitoringLock cfg = false ->
     (count is_evaluating (pcs s) <= 1)%nat /\
     (count in_critical (pcs s) <= 1)%nat /\
     fatal s = false /\
     (forall i service, Services cfg !! i = Some service ->
        exists results result k,
          keep is_guarded (events_of i (trace s))
          = flat_map (guarded service) results
            ++ take k (guarded service result)) /\
     count in_critical (pcs s) = (if locked s then 1 else 0)%nat /\
     (forall i answer, pcs s !! i = Some AtLock ->
        step cfg i answer s = lock_attempt i s) /\
     (forall i p more,
        pcs s !! i = Some p -> in_critical p = true ->
        (steps_to_unlock p <= turns i more)%nat ->
        exists k earlier result,
          (k <= length more)%nat /\
          locked (run cfg (take k more) s) = false /\
          pcs (run cfg (take k more) s) !! i = Some (AtSleep result) /\
          trace (run cfg (take k more) s)
          = trace s ++ earlier ++ [(i, EvUnlock)]) /\
     (forall i service answer, Services cfg !! i = Some service ->
        let s1 := run cfg (replicate 11 (i, answer)) (init cfg) in
        locked s1 = false /\ fatal s1 = false /\
        pcs s1 !! i = Some AtLock /\
        keep (fun x => is_guarded (snd x)) (trace s1)
        = map (pair i) (guarded service answer))) /\
  (DisableMonitoringLock cfg = true ->
     keep (fun x => is_lock_event (snd x)) (trace s) = [] /\
     locked s = false /\ fatal s = false).
Proof.
  intros s. split; intros Htoggle.
  - pose proof (lock_inv_run cfg sched _ Htoggle (lock_inv_init cfg))
      as Hinv. fold s in Hinv.
    pose proof Hinv as [Hfatal Hcount].
    destruct (shape_inv_run cfg sched _ (shape_inv_init cfg)) as [Hlen _].
    fold s in Hlen.
    assert (count in_critical (pcs s) <= 1)%nat as Hcs
      by (rewrite Hcount; destruct (locked s); lia).
    refine (conj _ (conj Hcs (conj Hfatal (conj _ (conj Hcount
              (conj _ (conj _ _))))))).
    + etrans; [|exact Hcs]. apply count_le. by intros [].
    + intros i service Hsvc.
      apply (follows_loop_keep _ cfg service).
      * intros r. by apply iteration_guarded.
      * by apply run_follows_loop.
    + intros i answer Hp. by apply step_at_lock.
    + intros i p more Hp Hin Hturns.
      by apply (holder_releases cfg i more Htoggle s p).
    + intros i service answer Hsvc s1.
      assert (stands_at (init cfg) i AtLock false []) as Hinit.
      { repeat split. simpl. by rewrite list_lookup_fmap, Hsvc. }
      destruct (iteration_alone cfg i service answer _ _ Hsvc Hinit)
        as (Hf1 & Hl1 & Hp1 & Htr1).
      fold s1 in Hf1, Hl1, Hp1, Htr1.
      refine (conj Hl1 (conj Hf1 (conj Hp1 _))).
      rewrite Htr1. cbn [app].
      rewrite <- (iteration_guarded cfg service answer Htoggle).
      generalize (iteration cfg service answer). intros evs.
      induction evs as [|e evs IH]; [done|].
      cbn [map keep snd]. destruct (is_guarded e); cbn [map]; by rewrite IH.
  - assert (unlocked_inv (init cfg)) as Hinit by (by repeat split).
    by destruct (unlocked_inv_run cfg sched _ Htoggle Hinit) as (? & ? & ?).
Qed.

Lemma monitoring_lock_serializes_witness :
  ((count is_evaluating (pcs (run serialized contended (init serialized)))
    <= 1)%nat /\
   fatal (run serialized contended (init serialized)) = false) /\
  locked (run unserialized contended (init unserialized)) = false /\
  (exists k earlier result,
     (k <= length first_finishes)%nat /\
     locked (run serialized (take k first_finishes)
               (run serialized first_then_waiting (init serialized)))
     = false /\
     pcs (run serialized (take k first_finishes)
            (run serialized first_then_waiting (init serialized))) !! 0%nat
     = Some (AtSleep result) /\
     trace (run serialized (take k first_finishes)
              (run serialized first_then_waiting (init serialized)))
     = trace (run serialized first_then_waiting (init serialized))
       ++ earlier ++ [(0%nat, EvUnlock)]).
Proof.
  split; [|split].
  - destruct (monitoring_lock_serializes serialized contended) as [Hon _].
    destruct (Hon eq_refl) as (He & _ & Hf & _). by split.
  - destruct (monitoring_lock_serializes unserialized contended) as [_ Hoff].
    by destruct (Hoff eq_refl) as (_ & Hl & _).
  - destruct (monitoring_lock_serializes serialized first_then_waiting)
      as [Hon _].
    destruct (Hon eq_refl) as (_ & _ & _ & _ & _ & _ & Hrel & _).
    apply (Hrel 0%nat Evaluating first_finishes);
      [reflexivity|reflexivity|vm_compute; lia].
Defined.

(** C3. The events of the goroutine of a service, restricted to the return
    of the evaluation and the three calls that receive its result, are a
    repetition of: the evaluation returns [r], PublishMetricsForService
    gets [r], Insert gets [r] (through UpdateServiceStatuses),
    HandleAlerting gets [r]; and an iteration that runs alone makes exactly
    the events of [iteration], all three calls included. *)
Theorem result_forwarded_in_order (cfg : Config) (sched : schedule)
    (i : nat) (service : Service) :
  Services cfg !! i = Some service ->
  (exists results result k,
     keep is_forwarding (events_of i (trace (run cfg sched (init cfg))))
     = flat_map (forwarding service) results
       ++ take k (forwarding service result)) /\
  (forall answer,
     trace (run cfg (replicate 11 (i, answer)) (init cfg))
     = map (pair i) (iteration cfg service answer) /\
     keep is_forwarding (iteration cfg service answer)
     = [EvEvaluateReturn service answer; EvPublishMetrics service answer;
        EvInsert service answer; EvHandleAlerting service answer]).
Proof.
  intros Hsvc. split.
  - apply (follows_loop_keep _ cfg service).
    + intros r. apply iteration_forwarding.
    + by apply run_follows_loop.
  - intros answer. split; [|apply iteration_forwarding].
    assert (stands_at (init cfg) i AtLock false []) as Hinit.
    { repeat split. simpl. by rewrite list_lookup_fmap, Hsvc. }
    by destruct (iteration_alone cfg i service answer _ _ Hsvc Hinit)
      as (_ & _ & _ & ->).
Qed.

Lemma result_forwarded_in_order_witness :
  Services serialized !! 1%nat = Some backend /\
  keep is_forwarding (iteration serialized backend failing)
  = [EvEvaluateReturn backend failing; EvPublishMetrics backend failing;
     EvInsert backend failing; EvHandleAlerting backend failing].
Proof.
  split; [reflexivity|].
  destruct (result_forwarded_in_order serialized contended 1 backend
              eq_refl) as [_ Hiter].
  exact (proj2 (Hiter failing)).
Defined.

(** C7. [Monitor] starts exactly one goroutine per configured service, in
    order, and sleeps 1111 ms immediately before each [go] statement; the
    clock readings at the [go] statements are therefore at least 1111 ms
    apart, so no two goroutines are started at the same instant. *)
Theorem Monitor_staggers (cfg : Config) (lates : list N) (t0 : Z) :
  let l := Monitor cfg lates t0 in
  (started l).*1 = Services cfg /\
  did l = flat_map (fun s => [EvSleep startDelay; EvGo s]) (Services cfg) /\
  startDelay = 1111000000 /\
  (forall i s t, started l !! i = Some (s, t) ->
     t0 + startDelay * (Z.of_nat i + 1) <= t) /\
  (forall i j si ti sj tj,
     started l !! i = Some (si, ti) -> started l !! j = Some (sj, tj) ->
     (i < j)%nat -> ti + startDelay * (Z.of_nat j - Z.of_nat i) <= tj) /\
  NoDup (started l).*2.
Proof.
  intros l. unfold l, Monitor.
  rewrite Monitor_range_started, Monitor_range_did. simpl.
  set (ts := launch_times (length (Services cfg)) lates t0).
  assert (length ts = length (Services cfg)) as Hlen
    by apply length_launch_times.
  assert (forall i j ti tj, ts !! i = Some ti -> ts !! j = Some tj ->
            (i < j)%nat -> ti < tj) as Hlt.
  { intros i j ti tj Hi Hj Hij.
    pose proof (launch_times_gap _ _ _ _ _ _ _ Hi Hj Hij) as Hgap.
    assert (0 < startDelay) by (by vm_compute). nia. }
  repeat split.
  - apply fst_zip. lia.
  - intros i s t Hi. apply lookup_zip_with_Some in Hi
      as (s' & t' & [= -> ->] & _ & Ht).
    by apply launch_times_lower in Ht.
  - intros i j si ti sj tj Hi Hj Hij.
    apply lookup_zip_with_Some in Hi as (? & ? & [= -> ->] & _ & Hi).
    apply lookup_zip_with_Some in Hj as (? & ? & [= -> ->] & _ & Hj).
    by eapply launch_times_gap.
  - rewrite snd_zip by lia. apply NoDup_alt. intros i j t Hi Hj.
    destruct (Nat.lt_trichotomy i j) as [Hij|[Hij|Hij]]; [|done|].
    + pose proof (Hlt _ _ _ _ Hi Hj Hij). lia.
    + pose proof (Hlt _ _ _ _ Hj Hi Hij). lia.
Qed.

Lemma Monitor_staggers_witness :
  started (Monitor serialized [0%N; 250%N] 0) !! 0%nat
    = Some (frontend, 1111000000) /\
  started (Monitor serialized [0%N; 250%N] 0) !! 1%nat
    = Some (backend, 2222000250) /\
  1111000000 + startDelay * (Z.of_nat 1 - Z.of_nat 0) <= 2222000250.
Proof.
  split; [reflexivity|]. split; [reflexivity|].
  destruct (Monitor_staggers serialized [0%N; 250%N] 0)
    as (_ & _ & _ & _ & Hgap & _).
  apply (Hgap 0%nat 1%nat frontend _ backend _); [reflexivity|reflexivity|lia].
Defined.

End WatchdogFacts.

Module GocacheFacts.
Import Gocache.

Lemma find_without_same k es : List.find (has_key k) (without k es) = None.
Proof.
  induction es as [|e es IH]; [done|]. unfold without in *. simpl.
  destruct (has_key k e) eqn:He; simpl; [done|]. by rewrite He.
Qed.

Lemma find_without_other k k' es :
  k <> k' ->
  List.find (has_key k') (without k es) = List.find (has_key k') es.
Proof.
  intros Hne. induction es as [|e es IH]; [done|]. unfold without in *.
  simpl. destruct (has_key k e) eqn:Hk; simpl.
  - apply bool_decide_eq_true in Hk.
    assert (has_key k' e = false) as ->; [|done].
    apply bool_decide_eq_false. congruence.
  - by destruct (has_key k' e).
Qed.

Lemma find_head k e l :
  Key e = k -> List.find (has_key k) (e :: l) = Some e.
Proof.
  intros Hk. cbn [List.find]. unfold has_key at 1.
  by rewrite bool_decide_eq_true_2.
Qed.

Lemma find_skip k e l :
  Key e <> k -> List.find (has_key k) (e :: l) = List.find (has_key k) l.
Proof.
  intros Hk. cbn [List.find]. unfold has_key at 1.
  by rewrite bool_decide_eq_false_2.
Qed.

Lemma elem_of_without k e es : e ∈ without k es -> e ∈ es.
Proof.
  rewrite !list_elem_of_In. unfold without. rewrite filter_In. tauto.
Qed.

Lemma elem_of_removelast {A} (x : A) (l : list A) :
  x ∈ removelast l -> x ∈ l.
Proof.
  induction l as [|y l IH]; [done|]. simpl.
  destruct l as [|z l]; [by intros ?%elem_of_nil|].
  intros [->|Hx]%elem_of_cons; [left|right; by apply IH].
Qed.

Lemma elem_of_enforce_max m e es : e ∈ enforce_max m es -> e ∈ es.
Proof.
  unfold enforce_max, evict.
  destruct (_ && _); [apply elem_of_removelast|done].
Qed.

Lemma enforce_max_cons m a l :
  1 <= m -> exists l', enforce_max m (a :: l) = a :: l'.
Proof.
  intros Hm. unfold enforce_max, evict.
  destruct (_ && _) eqn:Hover; [|by eexists].
  destruct l as [|b l]; [|by eexists].
  apply andb_true_iff in Hover as [_ Hlt%Z.ltb_lt]. simpl in Hlt. lia.
Qed.

Lemma enforce_max_cons2 m a b l :
  2 <= m -> exists l', enforce_max m (a :: b :: l) = a :: b :: l'.
Proof.
  intros Hm. unfold enforce_max, evict.
  destruct (_ && _) eqn:Hover; [|by eexists].
  destruct l as [|c l]; [|by eexists].
  apply andb_true_iff in Hover as [_ Hlt%Z.ltb_lt]. simpl in Hlt. lia.
Qed.

Lemma SetWithTTL_settings now k v ttl c :
  same_settings c (SetWithTTL now k v ttl c).
Proof. done. Qed.

Lemma Get_settings now k c : same_settings c (Get now k c).2.
Proof.
  unfold Get. destruct (get k c) as [e|]; [|done].
  destruct (Expired now e); [done|]. by destruct (evictionPolicy c).
Qed.

Lemma SetWithTTL_head now k v ttl c :
  1 <= maxSize c -> ttl <> NoExpiration ->
  exists l', entries (SetWithTTL now k v ttl c)
             = mkEntry k v (now + ttl) :: l'.
Proof.
  intros Hm Httl. unfold SetWithTTL. simpl.
  rewrite decide_False by done. by apply enforce_max_cons.
Qed.

Lemma SetWithTTL_second now k v ttl c e l :
  2 <= maxSize c -> ttl <> NoExpiration ->
  entries c = e :: l -> Key e <> k ->
  exists l', entries (SetWithTTL now k v ttl c)
             = mkEntry k v (now + ttl) :: e :: l'.
Proof.
  intros Hm Httl Hes Hne. unfold SetWithTTL. simpl.
  rewrite decide_False, Hes by done.
  unfold without. simpl. unfold has_key at 1.
  rewrite bool_decide_eq_false_2 by done. simpl.
  by apply enforce_max_cons2.
Qed.

Lemma SetWithTTL_twice t1 t2 k1 k2 v1 v2 ttl c :
  2 <= maxSize c -> ttl <> NoExpiration -> k1 <> k2 ->
  exists l',
    entries (SetWithTTL t2 k2 v2 ttl (SetWithTTL t1 k1 v1 ttl c))
    = mkEntry k2 v2 (t2 + ttl) :: mkEntry k1 v1 (t1 + ttl) :: l'.
Proof.
  intros Hm Httl Hne.
  destruct (SetWithTTL_head t1 k1 v1 ttl c) as [l1 H1]; [lia|done|].
  by eapply SetWithTTL_second.
Qed.

Lemma SetWithTTL_elem_of now k v ttl c e :
  e ∈ entries (SetWithTTL now k v ttl c) ->
  e = mkEntry k v (if decide (ttl = NoExpiration)
                   then NoExpiration else now + ttl)
  \/ e ∈ entries c.
Proof.
  unfold SetWithTTL. simpl. intros He%elem_of_enforce_max.
  apply elem_of_cons in He as [->|He]; [by left|right].
  by eapply elem_of_without.
Qed.

Lemma Get_elem_of now k c e :
  e ∈ entries (Get now k c).2 -> e ∈ entries c.
Proof.
  unfold Get, get. destruct (List.find _ _) as [e'|] eqn:Hfind; [|done].
  destruct (Expired now e'); simpl.
  - apply elem_of_without.
  - destruct (evictionPolicy c); simpl; [|done].
    intros [->|He]%elem_of_cons; [|by eapply elem_of_without].
    apply list_elem_of_In. by apply find_some in Hfind as [? _].
Qed.

Lemma fst_Get now k c :
  (Get now k c).1
  = match get k c with
    | Some e => if Expired now e then None else Some (Value e)
    | None => None
    end.
Proof.
  unfold Get. destruct (get k c) as [e|]; [|done]. by destruct (Expired now e).
Qed.

Lemma Expired_later now now' e :
  now <= now' -> Expired now e = true -> Expired now' e = true.
Proof.
  unfold Expired. rewrite !andb_true_iff, !Z.ltb_lt. lia.
Qed.

Lemma Expired_iff now e :
  0 < Expiration e -> Expired now e = true <-> Expiration e < now.
Proof.
  intros Hpos. unfold Expired. rewrite andb_true_iff, !Z.ltb_lt. lia.
Qed.

Lemma not_Expired now e : now <= Expiration e -> Expired now e = false.
Proof.
  intros Hle. unfold Expired. apply andb_false_iff. right.
  apply Z.ltb_ge. lia.
Qed.

Lemma Get_live now k c e :
  evictionPolicy c = FirstInFirstOut ->
  get k c = Some e -> now <= Expiration e ->
  Get now k c = (Some (Value e), c).
Proof.
  intros Hfifo Hget Hle. unfold Get.
  by rewrite Hget, not_Expired, Hfifo.
Qed.

Lemma get_Janitor_pass now among k c e :
  get k c = Some e -> Expired now e = false ->
  get k (Janitor_pass now among c) = Some e.
Proof.
  unfold get, Janitor_pass. simpl. intros Hget Hlive.
  induction (entries c) as [|e' es IH]; [done|]. simpl in *.
  destruct (has_key k e') eqn:Hk.
  - injection Hget as ->. rewrite Hlive, andb_false_r. simpl. by rewrite Hk.
  - destruct (among e' && Expired now e'); simpl; [by apply IH|].
    rewrite Hk. by apply IH.
Qed.

(** A read that misses leaves every key reading as before, then and
    later, and leaves the entries of the other keys alone. *)
Lemma Get_miss now k c :
  (Get now k c).1 = None ->
  (forall k', k' <> k -> get k' (Get now k c).2 = get k' c) /\
  (forall k' now', now <= now' ->
     (Get now' k' (Get now k c).2).1 = (Get now' k' c).1).
Proof.
  intros Hmiss.
  assert (forall k', k' <> k -> get k' (Get now k c).2 = get k' c) as Hother.
  { intros k' Hne. unfold Get.
    destruct (get k c) as [e|] eqn:Hget; [|done].
    destruct (Expired now e) eqn:Hexp; simpl.
    - unfold get. simpl. by apply find_without_other.
    - rewrite fst_Get, Hget, Hexp in Hmiss. done. }
  split; [done|].
  intros k' now' Hle. rewrite !fst_Get.
  destruct (decide (k' = k)) as [->|Hne]; [|by rewrite Hother].
  rewrite fst_Get in Hmiss. unfold Get.
  destruct (get k c) as [e|] eqn:Hget; [|simpl; by rewrite Hget].
  destruct (Expired now e) eqn:Hexp; [|done].
  unfold get at 1. simpl. rewrite find_without_same.
  by rewrite (Expired_later now now' e).
Qed.

End GocacheFacts.

Module ControllerFacts.
Import Core Gocache Storage Controller GocacheFacts.

Lemma append_empty_r (s : string) : s +:+ "" = s.
Proof.
  induction s as [|a s IH]; [done|].
  change (String a (s +:+ "") = String a s). by f_equal.
Qed.

Lemma plainKey_ne_gzippedKey page pageSize :
  plainKey page pageSize <> gzippedKey page pageSize.
Proof.
  unfold plainKey, gzippedKey. intros Heq.
  do 3 apply String.app_inj in Heq.
  rewrite <- (append_empty_r (pretty pageSize)) in Heq at 1.
  by apply String.app_inj in Heq.
Qed.

Lemma last_cons {A} (l : list A) (x d : A) :
  List.last (x :: l) d = List.last l x.
Proof.
  revert x d. induction l as [|y l IH]; intros x d; [done|].
  change (List.last (x :: y :: l) d) with (List.last (y :: l) d).
  by rewrite !IH.
Qed.

Lemma cacheTTL_not_NoExpiration : cacheTTL <> NoExpiration.
Proof. by vm_compute. Qed.

Section Handlers.
Context {S : Type} {store_ops : Store S} {encoder : Encoder}.
Implicit Types (w : world S) (t : readings) (r : Request).

Lemma lookup_eq now r w :
  serviceStatusesHandler_lookup now r w
  = (mkLooked (page r) (pageSize r) (Contains (AcceptEncoding r) "gzip")
       (writer_for r) (Get now (key_of r) (the_cache w)).1,
     mkWorld (Get now (key_of r) (the_cache w)).2 (the_store w)
       (computed w)).
Proof.
  unfold serviceStatusesHandler_lookup, key_of, writer_for.
  destruct (Contains _ _); by destruct (Get _ _ _).
Qed.

Lemma handler_miss_ok t r w data :
  (Get (atGet t) (key_of r) (the_cache w)).1 = None ->
  Marshal (Statuses (GetAllServiceStatusesWithResultPagination
                       (the_store w) (page r) (pageSize r))) = Some data ->
  serviceStatusesHandler t r w
  = (ok_response r data,
     mkWorld (filled t r data (Get (atGet t) (key_of r) (the_cache w)).2)
       (the_store w) (1 + computed w)).
Proof.
  intros Hmiss Hdata. unfold serviceStatusesHandler.
  rewrite lookup_eq. unfold serviceStatusesHandler_finish. simpl.
  by rewrite Hmiss, Hdata.
Qed.

Lemma handler_miss_fail t r w :
  (Get (atGet t) (key_of r) (the_cache w)).1 = None ->
  Marshal (Statuses (GetAllServiceStatusesWithResultPagination
                       (the_store w) (page r) (pageSize r))) = None ->
  serviceStatusesHandler t r w
  = (failure_response r,
     mkWorld (Get (atGet t) (key_of r) (the_cache w)).2
       (the_store w) (1 + computed w)).
Proof.
  intros Hmiss Hdata. unfold serviceStatusesHandler.
  rewrite lookup_eq. unfold serviceStatusesHandler_finish. simpl.
  by rewrite Hmiss, Hdata.
Qed.

Lemma handler_hit t r w sent :
  (Get (atGet t) (key_of r) (the_cache w)).1 = Some sent ->
  serviceStatusesHandler t r w
  = (answer_with r sent,
     mkWorld (Get (atGet t) (key_of r) (the_cache w)).2
       (the_store w) (computed w)).
Proof.
  intros Hhit. unfold serviceStatusesHandler.
  rewrite lookup_eq. unfold serviceStatusesHandler_finish. simpl.
  by rewrite Hhit.
Qed.

Lemma filled_holds_both t r data c :
  configured c -> holds_both (filled t r data c) t r data.
Proof.
  intros [Hmax Hfifo]. split; [done|].
  destruct (SetWithTTL_twice (atSetPlain t) (atSetGzipped t)
              (plainKey (page r) (pageSize r))
              (gzippedKey (page r) (pageSize r)) data (Gzip data)
              cacheTTL c) as [l Hl].
  { rewrite Hmax. lia. }
  { apply cacheTTL_not_NoExpiration. }
  { apply plainKey_ne_gzippedKey. }
  unfold get, filled. rewrite Hl. split.
  - rewrite find_skip, find_head; [done..|].
    intros Heq. by apply (plainKey_ne_gzippedKey (page r) (pageSize r)).
  - by rewrite find_head.
Qed.

Lemma hit_when_holds_both c t r data t' r' store n :
  holds_both c t r data ->
  page r' = page r -> pageSize r' = pageSize r ->
  within_ttl t t' ->
  serviceStatusesHandler t' r' (mkWorld c store n)
  = (ok_response r' data, mkWorld c store n).
Proof.
  intros (Hfifo & Hplain & Hgz) Hpage Hsize [Hp Hg].
  assert (Get (atGet t') (key_of r') c
          = (Some (if Contains (AcceptEncoding r') "gzip"
                   then Gzip data else data), c)) as Hget.
  { unfold key_of. rewrite Hpage, Hsize.
    destruct (Contains _ _).
    - by rewrite (Get_live _ _ _ _ Hfifo Hgz).
    - by rewrite (Get_live _ _ _ _ Hfifo Hplain). }
  rewrite (handler_hit t' r' (mkWorld c store n)
             (if Contains (AcceptEncoding r') "gzip"
              then Gzip data else data));
    cbn [the_cache the_store computed]; by rewrite Hget.
Qed.

Lemma swept_holds_both c t r data passes :
  holds_both c t r data ->
  Forall (fun pass => pass.1 <= atSetPlain t + cacheTTL /\
                      pass.1 <= atSetGzipped t + cacheTTL) passes ->
  holds_both (swept passes c) t r data.
Proof.
  intros Hboth. induction 1 as [|[now among] passes [Hp Hg] _ IH]; [done|].
  destruct IH as (Hfifo & Hplain & Hgz). simpl in *.
  split; [done|]. split.
  - apply get_Janitor_pass; [done|]. by apply not_Expired.
  - apply get_Janitor_pass; [done|]. by apply not_Expired.
Qed.

Lemma serve_hits c t r data calls n store :
  holds_both c t r data ->
  Forall (fun call => within_ttl t call.1) calls ->
  serve calls r (mkWorld c store n)
  = (replicate (length calls) (ok_response r data),
     mkWorld c (List.last calls.*2 store) n).
Proof.
  intros Hboth. revert store.
  induction calls as [|[t' store'] calls IH]; intros store Hall; [done|].
  apply Forall_cons in Hall as [Ht' Hall]. cbn [serve].
  cbn [the_cache computed].
  rewrite (hit_when_holds_both c t r data t' r store' n) by done.
  rewrite (IH store' Hall). cbn [length replicate fmap list_fmap snd].
  by rewrite last_cons.
Qed.

Lemma cache_after t r w :
  the_cache (serviceStatusesHandler t r w).2
  = (Get (atGet t) (key_of r) (the_cache w)).2
  \/ exists data,
       the_cache (serviceStatusesHandler t r w).2
       = filled t r data (Get (atGet t) (key_of r) (the_cache w)).2.
Proof.
  destruct (Get (atGet t) (key_of r) (the_cache w)).1 as [sent|] eqn:Hget.
  - left. by rewrite (handler_hit _ _ _ _ Hget).
  - destruct (Marshal (Statuses (GetAllServiceStatusesWithResultPagination
                                   (the_store w) (page r) (pageSize r))))
      as [data|] eqn:Hdata.
    + right. exists data. by rewrite (handler_miss_ok _ _ _ _ Hget Hdata).
    + left. by rewrite (handler_miss_fail _ _ _ Hget Hdata).
Qed.

Lemma not_found_response r (store : S) :
  GetServiceStatusByKey store (key r) = None ->
  serviceStatusHandler r store
  = {| Header := []; status := Some 404; body := bytes "not found" |}.
Proof. intros Hnone. unfold serviceStatusHandler. by rewrite Hnone. Qed.


(** *** The claims about the cached read of all statuses *)

(** C5. When the lookup misses and [json.Marshal] fails, the handler answers
    500 "Unable to marshal object to JSON", the store is the one it was
    given, nothing was inserted into the cache (its only cache operation was
    the lookup), the entry of every other key is untouched, and every key
    reads, from then on, as it would have before. *)
Theorem marshal_failure_leaves_state
    (w : world S) (t : readings) (r : Request) :
  (Get (atGet t) (key_of r) (the_cache w)).1 = None ->
  Marshal (Statuses (GetAllServiceStatusesWithResultPagination
                       (the_store w) (page r) (pageSize r))) = None ->
  let answered := serviceStatusesHandler t r w in
  status answered.1 = Some 500 /\
  body answered.1 = bytes "Unable to marshal object to JSON" /\
  the_store answered.2 = the_store w /\
  the_cache answered.2 = (Get (atGet t) (key_of r) (the_cache w)).2 /\
  same_settings (the_cache w) (the_cache answered.2) /\
  (forall e, e ∈ entries (the_cache answered.2) ->
             e ∈ entries (the_cache w)) /\
  (forall k, k <> key_of r ->
             get k (the_cache answered.2) = get k (the_cache w)) /\
  (forall k now, atGet t <= now ->
     (Get now k (the_cache answered.2)).1 = (Get now k (the_cache w)).1).
Proof.
  intros Hmiss Hfail answered. unfold answered.
  rewrite (handler_miss_fail _ _ _ Hmiss Hfail). cbn [fst snd the_cache the_store].
  destruct (Get_miss _ _ _ Hmiss) as [Hother Hreads].
  repeat split.
  - unfold failure_response, writer_for. by destruct (Contains _ _).
  - apply Get_settings.
  - apply Get_settings.
  - intros e. apply Get_elem_of.
  - done.
  - done.
Qed.

(** C6. [cacheTTL] is ten seconds, and whatever the handler adds to the cache
    in a call is an entry written with that time to live: its expiration is
    the clock reading at its [SetWithTTL] plus ten seconds, and it has
    expired exactly when the clock is past that. *)
Theorem inserted_entries_live_cacheTTL
    (w : world S) (t : readings) (r : Request) (e : Entry) :
  e ∈ entries (the_cache (serviceStatusesHandler t r w).2) ->
  e ∉ entries (the_cache w) ->
  cacheTTL = 10 * 1000000000 /\
  exists inserted,
    (inserted = atSetPlain t \/ inserted = atSetGzipped t) /\
    Expiration e = inserted + cacheTTL /\
    (0 <= inserted ->
     forall now, Expired now e = true <-> inserted + cacheTTL < now).
Proof.
  intros Hin Hnew. split; [done|].
  assert (0 < cacheTTL) as Hpos by (by vm_compute).
  destruct (cache_after t r w) as [Heq|[data Heq]]; rewrite Heq in Hin.
  - by apply Get_elem_of in Hin.
  - unfold filled in Hin.
    apply SetWithTTL_elem_of in Hin as [->|Hin];
      [|apply SetWithTTL_elem_of in Hin as [->|Hin]].
    + exists (atSetGzipped t). rewrite decide_False
        by apply cacheTTL_not_NoExpiration.
      split; [by right|]. split; [done|].
      intros Hins now. apply Expired_iff. simpl. lia.
    + exists (atSetPlain t). rewrite decide_False
        by apply cacheTTL_not_NoExpiration.
      split; [by left|]. split; [done|].
      intros Hins now. apply Expired_iff. simpl. lia.
    + by apply Get_elem_of in Hin.
Qed.

(** C8. A call that misses and marshals [data] answers with [data] in the
    encoding it was asked for and leaves both the plain bytes and the gzipped
    bytes in the cache under their two keys; any call for the same page and
    page size, in either encoding, that looks the cache up before these
    expire, also after passes of the janitor, is answered from the cache,
    without computing and without changing the cache. *)
Theorem miss_caches_both_encodings
    (w : world S) (t : readings) (r : Request) (data : list Byte.byte) :
  configured (the_cache w) ->
  (Get (atGet t) (key_of r) (the_cache w)).1 = None ->
  Marshal (Statuses (GetAllServiceStatusesWithResultPagination
                       (the_store w) (page r) (pageSize r))) = Some data ->
  let answered := serviceStatusesHandler t r w in
  answered.1 = ok_response r data /\
  get (plainKey (page r) (pageSize r)) (the_cache answered.2)
  = Some {| Key := plainKey (page r) (pageSize r); Value := data;
            Expiration := atSetPlain t + cacheTTL |} /\
  get (gzippedKey (page r) (pageSize r)) (the_cache answered.2)
  = Some {| Key := gzippedKey (page r) (pageSize r); Value := Gzip data;
            Expiration := atSetGzipped t + cacheTTL |} /\
  forall t' r' store' passes,
    page r' = page r -> pageSize r' = pageSize r -> within_ttl t t' ->
    Forall (fun pass => pass.1 <= atSetPlain t + cacheTTL /\
                        pass.1 <= atSetGzipped t + cacheTTL) passes ->
    serviceStatusesHandler t' r'
      (mkWorld (swept passes (the_cache answered.2)) store'
         (computed answered.2))
    = (ok_response r' data,
       mkWorld (swept passes (the_cache answered.2)) store'
         (computed answered.2)).
Proof.
  intros Hconf Hmiss Hdata answered. unfold answered.
  rewrite (handler_miss_ok _ _ _ _ Hmiss Hdata).
  cbn [fst snd the_cache computed].
  assert (holds_both
            (filled t r data (Get (atGet t) (key_of r) (the_cache w)).2)
            t r data) as Hboth.
  { apply filled_holds_both.
    destruct Hconf as [? ?], (Get_settings (atGet t) (key_of r) (the_cache w))
      as [Hm Hp]. split; congruence. }
  split; [done|]. split; [apply Hboth|]. split; [apply Hboth|].
  intros t' r' store' passes Hpage Hsize Httl Hpasses.
  apply (hit_when_holds_both _ t r data); [|done..].
  by apply swept_holds_both.
Qed.

End Handlers.

(** C4. A key that the store does not hold makes [GetServiceStatusByKey]
    return nil, and [serviceStatusHandler] then answers 404 with the body
    "not found" and no status payload. *)
Theorem unknown_key_is_not_found
    (encoder : Encoder) (m : memory) (r : Request) :
  key r ∉ dom m ->
  GetServiceStatusByKey m (key r) = None /\
  serviceStatusHandler r m
  = {| Header := []; status := Some StatusNotFound;
       body := bytes "not found" |}.
Proof.
  intros Hkey%not_elem_of_dom. split; [done|].
  by apply not_found_response.
Qed.

Lemma unknown_key_is_not_found_witness :
  serviceStatusHandler (encoder := sample_Encoder) unknown_service store_before
  = {| Header := []; status := Some 404; body := bytes "not found" |}.
Proof.
  apply (unknown_key_is_not_found sample_Encoder store_before unknown_service).
  apply not_elem_of_dom. reflexivity.
Defined.


Lemma marshal_failure_leaves_state_witness :
  status (serviceStatusesHandler (encoder := sample_Encoder) (at_second 100)
            first_page_gzipped (fresh store_broken)).1 = Some 500 /\
  the_cache (serviceStatusesHandler (encoder := sample_Encoder)
               (at_second 100) first_page_gzipped (fresh store_broken)).2
  = cache.
Proof.
  destruct (marshal_failure_leaves_state (encoder := sample_Encoder)
              (fresh store_broken) (at_second 100) first_page_gzipped)
    as (Hstatus & _ & _ & Hcache & _).
  - reflexivity.
  - reflexivity.
  - split; [exact Hstatus|]. rewrite Hcache. reflexivity.
Defined.

Lemma inserted_entries_live_cacheTTL_witness :
  Expired (110 * Time.Second + 1)
    (plainEntry (at_second 100) first_page encoded_before) = false /\
  Expired (110 * Time.Second + 2)
    (plainEntry (at_second 100) first_page encoded_before) = true.
Proof.
  destruct (inserted_entries_live_cacheTTL (encoder := sample_Encoder)
              (fresh store_before) (at_second 100) first_page
              (plainEntry (at_second 100) first_page encoded_before))
    as (_ & inserted & Hwhen & Hexp & Hiff).
  - apply list_elem_of_In. vm_compute. right. left. reflexivity.
  - apply not_elem_of_nil.
  - assert (inserted = 100 * Time.Second + 1) as ->.
    { unfold plainEntry, at_second in Hexp. cbn [Expiration atSetPlain] in Hexp.
      unfold cacheTTL, Time.Second, Time.Millisecond, Time.Microsecond,
        Time.Nanosecond in *.
      lia. }
    split.
    + apply not_true_iff_false. rewrite Hiff by (vm_compute; discriminate).
      vm_compute. discriminate.
    + apply Hiff; [vm_compute; discriminate|]. reflexivity.
Defined.

Lemma miss_caches_both_encodings_witness :
  serviceStatusesHandler (encoder := sample_Encoder) (at_second 107)
    first_page_gzipped
    (mkWorld
       (the_cache (serviceStatusesHandler (encoder := sample_Encoder)
                     (at_second 100) first_page (fresh store_before)).2)
       store_after 1)
  = (ok_response (encoder := sample_Encoder) first_page_gzipped encoded_before,
     mkWorld
       (the_cache (serviceStatusesHandler (encoder := sample_Encoder)
                     (at_second 100) first_page (fresh store_before)).2)
       store_after 1).
Proof.
  destruct (miss_caches_both_encodings (encoder := sample_Encoder)
              (fresh store_before) (at_second 100) first_page encoded_before)
    as (_ & _ & _ & Hlater).
  - split; reflexivity.
  - reflexivity.
  - reflexivity.
  - apply (Hlater (at_second 107) first_page_gzipped store_after []).
    + reflexivity.
    + reflexivity.
    + split; vm_compute; discriminate.
    + constructor.
Defined.

End ControllerFacts.

Module ClientFacts.
Import Client ClientCalls.

Lemma GetHTTPClient_spec insecure st :
  well_formed st ->
  well_formed (GetHTTPClient insecure st).2 /\
  shared insecure (GetHTTPClient insecure st).2
  = Some (GetHTTPClient insecure st).1 /\
  (forall b q, shared b st = Some q ->
               shared b (GetHTTPClient insecure st).2 = Some q) /\
  (forall q c, heap st !! q = Some c ->
               heap (GetHTTPClient insecure st).2 !! q = Some c).
Proof.
  intros Hwf. unfold GetHTTPClient.
  destruct insecure.
  - destruct (insecureHTTPClient st) as [p|] eqn:Hp;
      [by split; [|split; [exact Hp|]]|].
    simpl. repeat split.
    + intros [] q; simpl; intros Hq.
      * injection Hq as <-. eexists.
        split; [by apply list_lookup_middle|done].
      * destruct (Hwf false q Hq) as (c & Hc & Hskip).
        exists c. split; [|done]. by apply lookup_app_l_Some.
    + intros [] q; simpl; [congruence|done].
    + intros q c Hq. by apply lookup_app_l_Some.
  - destruct (secureHTTPClient st) as [p|] eqn:Hp;
      [by split; [|split; [exact Hp|]]|].
    simpl. repeat split.
    + intros [] q; simpl; intros Hq.
      * destruct (Hwf true q Hq) as (c & Hc & Hskip).
        exists c. split; [|done]. by apply lookup_app_l_Some.
      * injection Hq as <-. eexists.
        split; [by apply list_lookup_middle|done].
    + intros [] q; simpl; [done|congruence].
    + intros q c Hq. by apply lookup_app_l_Some.
Qed.

Lemma calls_cons insecure flags st :
  calls (insecure :: flags) st
  = ((GetHTTPClient insecure st).1
       :: (calls flags (GetHTTPClient insecure st).2).1,
     (calls flags (GetHTTPClient insecure st).2).2).
Proof.
  cbn [calls]. destruct (GetHTTPClient insecure st) as [p st1].
  cbn [fst snd]. destruct (calls flags st1). reflexivity.
Qed.

Lemma calls_spec flags st :
  well_formed st ->
  well_formed (calls flags st).2 /\
  length (calls flags st).1 = length flags /\
  (forall b q, shared b st = Some q -> shared b (calls flags st).2 = Some q) /\
  (forall q c, heap st !! q = Some c ->
               heap (calls flags st).2 !! q = Some c) /\
  (forall i b p, flags !! i = Some b -> (calls flags st).1 !! i = Some p ->
                 shared b (calls flags st).2 = Some p).
Proof.
  revert st. induction flags as [|insecure flags IH]; intros st Hwf.
  - by repeat split.
  - rewrite calls_cons. cbn [fst snd].
    destruct (GetHTTPClient_spec insecure st Hwf)
      as (Hwf1 & Hshared & Hkeep & Hheap).
    destruct (IH _ Hwf1) as (Hwf2 & Hlen & Hkeep2 & Hheap2 & Hret).
    repeat split; [done|simpl; by rewrite Hlen|by auto|by auto|].
    intros [|i] b p Hb Hp; simpl in Hb, Hp.
    + injection Hb as <-. injection Hp as <-. by apply Hkeep2.
    + by eapply Hret.
Qed.

(** *** Calls in flight *)





(** *** The claims about the client *)




(** C10, as stated, fails: when the run ends normally and the pinger has no
    statistics, [Ping] returns true (with 0) though no probe is known to have
    completed; and when the statistics carry a loss that is not a number
    (nothing was sent), [Ping] returns true though the loss is not below
    100. *)
Lemma Ping_true_without_probe :
  Run (ICMP := no_statistics) (prepared initial (blank "10.0.0.1"))
  = Ran None /\
  Ping (icmp := no_statistics) initial "10.0.0.1" = (true, 0) /\
  Ping (icmp := nothing_sent) initial "10.0.0.1" = (true, 0) /\
  float64_lt NaN hundred = false.
Proof. repeat split. Qed.

(** C10, as amended. [Ping] always returns: (false, 0) when the pinger
    cannot be created or its run fails; (false, pingTimeout) when the
    statistics report a packet loss equal to 100; (true, the maximum
    round-trip time) when they report any other packet loss; (true, 0) when
    the pinger has no statistics. It returns true in the last two cases
    only. The pinger it runs sends one packet, with [pingTimeout], on ip4,
    privileged. *)
Theorem Ping_cases (icmp : ICMP) (st : state) (address : string) :
  (NewPinger address = None -> Ping st address = (false, 0)) /\
  (forall pinger,
     NewPinger address = Some pinger ->
     prepared st pinger
     = {| addr := addr pinger; Count := 1; Timeout_ := pingTimeout st;
          network := "ip4"; privileged := true |} /\
     (Run (prepared st pinger) = RunError -> Ping st address = (false, 0)) /\
     (Run (prepared st pinger) = Ran None -> Ping st address = (true, 0)) /\
     (forall statistics,
        Run (prepared st pinger) = Ran (Some statistics) ->
        Ping st address
        = if float64_eq (PacketLoss statistics) hundred
          then (false, pingTimeout st)
          else (true, MaxRtt statistics))) /\
  ((Ping st address).1 = true ->
   exists pinger,
     NewPinger address = Some pinger /\
     (Run (prepared st pinger) = Ran None \/
      exists statistics,
        Run (prepared st pinger) = Ran (Some statistics) /\
        float64_eq (PacketLoss statistics) hundred = false /\
        (Ping st address).2 = MaxRtt statistics)).
Proof.
  unfold Ping. split; [by intros ->|]. split.
  - intros pinger ->. split; [done|].
    split; [by intros ->|]. split; [by intros ->|].
    by intros statistics ->.
  - destruct (NewPinger address) as [pinger|]; [|done].
    destruct (Run (prepared st pinger)) as [|[statistics|]] eqn:Hrun;
      [done| |by eauto].
    destruct (float64_eq _ _) eqn:Hloss; [done|].
    intros _. exists pinger. split; [done|]. right. by exists statistics.
Qed.

Lemma Ping_cases_witness :
  Ping (icmp := reachable) initial "10.0.0.1" = (true, 20000000) /\
  Ping (icmp := unreachable) initial "10.0.0.1" = (false, 5000000000).
Proof.
  split.
  - destruct (Ping_cases reachable initial "10.0.0.1") as (_ & Hrun & _).
    destruct (Hrun (blank "10.0.0.1") eq_refl) as (_ & _ & _ & Hstat).
    exact (Hstat _ eq_refl).
  - destruct (Ping_cases unreachable initial "10.0.0.1") as (_ & Hrun & _).
    destruct (Hrun (blank "10.0.0.1") eq_refl) as (_ & _ & _ & Hstat).
    exact (Hstat _ eq_refl).
Defined.

End ClientFacts.

Module WatchdogViewsFacts.
Import Core Watchdog WatchdogViews WatchdogFacts.

Lemma count_pos_lookup {A} (f : A -> bool) (l : list A) :
  (1 <= count f l)%nat -> exists i x, l !! i = Some x /\ f x = true.
Proof.
  induction l as [|y l IH]; simpl; [lia|].
  destruct (f y) eqn:Hy.
  - intros _. by exists 0%nat, y.
  - intros Hpos. destruct (IH Hpos) as (i & x & Hi & Hx).
    by exists (Datatypes.S i), x.
Qed.

(** X1. Whatever the schedule so far, some goroutine is not blocked: with the
    mutex held it is the holder, with the mutex free it is any goroutine.
    The process cannot deadlock on [monitoringMutex]. *)
Theorem some_goroutine_can_step (cfg : Config) (sched : schedule) :
  Services cfg <> [] ->
  exists i, can_step cfg i (run cfg sched (init cfg)).
Proof.
  intros Hsome. set (s := run cfg sched (init cfg)).
  destruct (shape_inv_run cfg sched _ (shape_inv_init cfg)) as [Hlen _].
  fold s in Hlen.
  assert (forall i, is_Some (pcs s !! i) -> is_Some (Services cfg !! i))
    as Hboth.
  { intros i [p Hp]. apply lookup_lt_is_Some.
    apply lookup_lt_Some in Hp. lia. }
  destruct (DisableMonitoringLock cfg) eqn:Htoggle.
  - assert (unlocked_inv (init cfg)) as Hinit by (by repeat split).
    destruct (unlocked_inv_run cfg sched _ Htoggle Hinit) as (Hfatal & _ & _).
    fold s in Hfatal.
    destruct (Services cfg) as [|service rest] eqn:Hsvcs; [done|].
    destruct (pcs s) as [|p ps] eqn:Hpcs; [done|].
    exists 0%nat. intros answer. unfold step.
    rewrite Hfatal, Hsvcs, Hpcs. cbn [lookup list_lookup].
    unfold monitor_step. rewrite Htoggle.
    destruct p; simpl; discriminate.
  - destruct (lock_inv_run cfg sched _ Htoggle (lock_inv_init cfg))
      as [Hfatal Hcount]. fold s in Hfatal, Hcount.
    destruct (locked s) eqn:Hlk.
    + destruct (count_pos_lookup in_critical (pcs s)) as (i & p & Hp & Hcs);
        [lia|].
      destruct (Hboth i) as [service Hsvc]; [by eexists|].
      exists i. intros answer. unfold step.
      rewrite Hfatal, Hsvc, Hp, Hlk. unfold monitor_step. rewrite Htoggle.
      destruct p; try discriminate Hcs; simpl;
        rewrite list_lookup_insert_eq by (by eapply lookup_lt_Some);
        discriminate.
    + destruct (Services cfg) as [|service rest] eqn:Hsvcs; [done|].
      destruct (pcs s) as [|p ps] eqn:Hpcs; [done|].
      assert (in_critical p = false) as Hout.
      { destruct (in_critical p) eqn:Hcs; [|done].
        simpl in Hcount. rewrite Hcs in Hcount. lia. }
      exists 0%nat. intros answer. unfold step.
      rewrite Hfatal, Hsvcs, Hpcs, Hlk. cbn [lookup list_lookup].
      unfold monitor_step. rewrite Htoggle.
      destruct p; try discriminate Hout; simpl; discriminate.
Qed.

Lemma some_goroutine_can_step_witness :
  exists i, can_step serialized i (run serialized contended (init serialized)).
Proof.
  apply (some_goroutine_can_step serialized contended). discriminate.
Defined.

Lemma iteration_locked_then_slept cfg service r :
  DisableMonitoringLock cfg = false ->
  keep is_lock_or_sleep (iteration cfg service r) = locked_then_slept service.
Proof. unfold iteration. intros ->. by destruct (Debug cfg). Qed.

(** X2. With the toggle on, the mutex operations and sleeps of a goroutine
    repeat Lock, Unlock, Sleep(service.Interval): the interval between two
    checks of a service is slept with the mutex released, never inside the
    critical section. *)
Theorem interval_slept_unlocked (cfg : Config) (sched : schedule)
    (i : nat) (service : Service) :
  DisableMonitoringLock cfg = false ->
  Services cfg !! i = Some service ->
  exists (n k : nat),
    keep is_lock_or_sleep (events_of i (trace (run cfg sched (init cfg))))
    = concat (replicate n (locked_then_slept service))
      ++ take k (locked_then_slept service).
Proof.
  intros Htoggle Hsvc.
  destruct (follows_loop_keep is_lock_or_sleep cfg service
              (events_of i (trace (run cfg sched (init cfg))))
              (fun _ => locked_then_slept service))
    as (results & _ & k & Hkeep).
  - intros r. by apply iteration_locked_then_slept.
  - by apply run_follows_loop.
  - exists (length results), k. rewrite Hkeep. f_equal.
    clear Hkeep. induction results as [|r results IH]; [done|].
    simpl. by rewrite IH.
Qed.

Lemma interval_slept_unlocked_witness :
  exists (n k : nat),
    keep is_lock_or_sleep
      (events_of 0 (trace (run serialized
                             (replicate 25 (0%nat, healthy))
                             (init serialized))))
    = concat (replicate n (locked_then_slept frontend))
      ++ take k (locked_then_slept frontend).
Proof.
  apply (interval_slept_unlocked serialized (replicate 25 (0%nat, healthy))
           0 frontend); reflexivity.
Defined.

End WatchdogViewsFacts.

Module StrconvFacts.
Import Strconv.

Lemma digit_value_pretty_N_char (d : N) :
  (d < 10)%N -> digit_value (pretty_N_char d) = Some d.
Proof.
  intros Hd.
  assert (d = 0 \/ d = 1 \/ d = 2 \/ d = 3 \/ d = 4 \/ d = 5 \/ d = 6
          \/ d = 7 \/ d = 8 \/ d = 9)%N as Hcases by lia.
  repeat (destruct Hcases as [->|Hcases]; [reflexivity|]).
  by subst.
Qed.

Lemma pretty_N_char_no_sign (d : N) :
  Ascii.eqb (pretty_N_char d) minus = false /\
  Ascii.eqb (pretty_N_char d) plus = false.
Proof. unfold pretty_N_char. by repeat case_match. Qed.

(** Reading back the digits that [pretty] puts in front of [s]. *)
Lemma digits_pretty_N_go (x : N) :
  exists k : N, forall s acc,
    digits (pretty_N_go x s) acc = digits s (acc * 10 ^ k + x)%N.
Proof.
  induction (N.lt_wf_0 x) as [x _ IH].
  assert (x = 0 \/ 0 < x)%N as [->|Hpos] by lia.
  - exists 0%N. intros s acc. rewrite pretty_N_go_0. f_equal.
    rewrite N.pow_0_r. lia.
  - destruct (IH (x `div` 10)%N) as [k Hk]; [by apply N.div_lt|].
    exists (k + 1)%N. intros s acc.
    rewrite pretty_N_go_step, Hk by done. cbn [digits].
    rewrite digit_value_pretty_N_char by (by apply N.mod_lt).
    f_equal. rewrite N.pow_add_r, N.pow_1_r.
    rewrite (N.div_mod x 10) at 3 by done. lia.
Qed.

Lemma pretty_N_go_head (x : N) (s : string) :
  (0 < x)%N ->
  exists d rest, pretty_N_go x s = String (pretty_N_char d) rest.
Proof.
  revert s. induction (N.lt_wf_0 x) as [x _ IH]. intros s Hpos.
  rewrite pretty_N_go_step by done.
  destruct (N.eq_0_gt_0_cases (x `div` 10)) as [->|Hdiv].
  - rewrite pretty_N_go_0. by eexists _, _.
  - apply IH; [by apply N.div_lt|done].
Qed.

Lemma Atoi_pretty_positive (p : positive) :
  Z.pos p < 2 ^ 63 ->
  Atoi (pretty (N.pos p)) = Some (Z.pos p) /\
  digits (pretty (N.pos p)) 0 = Some (N.pos p) /\
  pretty (N.pos p) <> "".
Proof.
  intros Hrange. unfold pretty, pretty_N. rewrite decide_False by done.
  destruct (pretty_N_go_head (N.pos p) "") as (d & rest & Hhead); [lia|].
  destruct (digits_pretty_N_go (N.pos p)) as [k Hk].
  assert (digits (pretty_N_go (N.pos p) "") 0 = Some (N.pos p)) as Hdigits.
  { rewrite Hk. simpl. f_equal. }
  split; [|split; [done|by rewrite Hhead]].
  unfold Atoi, split_sign. rewrite Hhead.
  destruct (pretty_N_char_no_sign d) as [-> ->].
  rewrite <- Hhead, Hdigits.
  replace (Z.of_N (N.pos p)) with (Z.pos p) by done.
  rewrite (proj2 (Z.leb_le _ _)), (proj2 (Z.ltb_lt _ _)) by lia. done.
Qed.

(** [Atoi] reads back what [Itoa] writes, for every [int]. *)
Lemma Atoi_Itoa (z : Z) :
  - 2 ^ 63 <= z < 2 ^ 63 -> Atoi (Itoa z) = Some z.
Proof.
  intros Hrange. unfold Itoa. destruct z as [|p|p].
  - reflexivity.
  - apply Atoi_pretty_positive. lia.
  - change (pretty (Z.neg p)) with (String minus (pretty (N.pos p))).
    destruct (digits_pretty_N_go (N.pos p)) as [k Hk].
    destruct (pretty_N_go_head (N.pos p) "") as (d & rest & Hhead); [lia|].
    unfold Atoi, split_sign.
    replace (Ascii.eqb minus minus) with true by done.
    unfold pretty, pretty_N. rewrite decide_False by done.
    rewrite Hhead, <- Hhead, Hk. simpl digits.
    replace (0 * 10 ^ k + N.pos p)%N with (N.pos p) by lia. cbv beta iota.
    replace (- Z.of_N (N.pos p)) with (Z.neg p) by done.
    rewrite (proj2 (Z.leb_le _ _)), (proj2 (Z.ltb_lt _ _)) by lia. done.
Qed.

Lemma Itoa_not_empty (z : Z) : (0 < String.length (Itoa z))%nat.
Proof.
  unfold Itoa. destruct z as [|p|p].
  - simpl. lia.
  - change (pretty (Z.pos p)) with (pretty (N.pos p)).
    unfold pretty, pretty_N. rewrite decide_False by done.
    destruct (pretty_N_go_head (N.pos p) "") as (d & rest & ->); [lia|].
    simpl. lia.
  - change (pretty (Z.neg p)) with (String minus (pretty (N.pos p))).
    simpl. lia.
Qed.

Lemma digits_all_digits (s : string) (acc n : N) :
  digits s acc = Some n -> all_digits s = true.
Proof.
  revert acc. induction s as [|c s IH]; intros acc; [done|].
  unfold all_digits in *. simpl.
  destruct (digit_value c) as [d|]; [|done].
  intros Hrest. rewrite bool_decide_eq_true_2 by (by eexists).
  by eapply IH.
Qed.

Lemma Atoi_Some (s : string) (z : Z) :
  Atoi s = Some z ->
  (split_sign s).2 <> "" /\ all_digits (split_sign s).2 = true /\
  - 2 ^ 63 <= z < 2 ^ 63.
Proof.
  unfold Atoi. destruct (split_sign s) as [negative body]. simpl.
  destruct body as [|c body]; [done|].
  destruct (digits (String c body) 0) as [n|] eqn:Hdigits; [|done].
  destruct (_ && _) eqn:Hrange; [|done]. intros [= <-].
  apply andb_true_iff in Hrange as [?%Z.leb_le ?%Z.ltb_lt].
  split; [done|]. split; [by eapply digits_all_digits|lia].
Qed.

End StrconvFacts.

Module ClientInitFacts.
Import Client ClientInit ClientFacts Strconv StrconvFacts.

Lemma tidy_GetHTTPClient d insecure st :
  tidy d st -> tidy d (GetHTTPClient insecure st).2.
Proof.
  intros Htidy. pose proof Htidy as (Hd & Hall & Hlen & Hlt & Hne).
  unfold GetHTTPClient. destruct insecure.
  - destruct (insecureHTTPClient st) as [p|] eqn:Hp; [exact Htidy|].
    refine (conj _ (conj _ (conj _ (conj _ _)))); simpl.
    + done.
    + intros c [Hc|[->|Hc%elem_of_nil]%elem_of_cons]%elem_of_app;
        simpl; by auto.
    + rewrite length_app, Hlen. simpl. destruct (secureHTTPClient st), (insecureHTTPClient st); simpl; lia.
    + intros [] q; simpl; intros Hq; rewrite length_app; simpl.
      * injection Hq as <-. lia.
      * specialize (Hlt false q Hq). lia.
    + intros p q [= <-] Hq. specialize (Hlt false q Hq). lia.
  - destruct (secureHTTPClient st) as [p|] eqn:Hp; [exact Htidy|].
    refine (conj _ (conj _ (conj _ (conj _ _)))); simpl.
    + done.
    + intros c [Hc|[->|Hc%elem_of_nil]%elem_of_cons]%elem_of_app;
        simpl; by auto.
    + rewrite length_app, Hlen. simpl. destruct (secureHTTPClient st), (insecureHTTPClient st); simpl; lia.
    + intros [] q; simpl; intros Hq; rewrite length_app; simpl.
      * specialize (Hlt true q Hq). lia.
      * injection Hq as <-. lia.
    + intros p q Hq [= <-]. specialize (Hlt true p Hq). lia.
Qed.

Lemma tidy_calls d flags st : tidy d st -> tidy d (calls flags st).2.
Proof.
  revert st. induction flags as [|insecure flags IH]; intros st Htidy; [done|].
  rewrite calls_cons. cbn [snd]. by apply IH, tidy_GetHTTPClient.
Qed.

Lemma loaded_empty Getenv :
  heap (loaded Getenv) = [] /\
  secureHTTPClient (loaded Getenv) = None /\
  insecureHTTPClient (loaded Getenv) = None.
Proof.
  unfold loaded, init. destruct (_ <? _)%nat; [|done]. by destruct (Atoi _).
Qed.

Lemma tidy_loaded Getenv : tidy (httpTimeout (loaded Getenv)) (loaded Getenv).
Proof.
  destruct (loaded_empty Getenv) as (Hheap & Hsecure & Hinsecure).
  unfold tidy, shared. rewrite Hheap, Hsecure, Hinsecure.
  split; [done|]. split; [by intros c ?%elem_of_nil|]. split; [done|].
  split; [by intros []|done].
Qed.

Lemma well_formed_loaded Getenv : well_formed (loaded Getenv).
Proof.
  destruct (loaded_empty Getenv) as (Hheap & Hsecure & Hinsecure).
  intros [] p; unfold shared; congruence.
Qed.

Lemma wrap64_small (z : Z) : - 2 ^ 63 <= z < 2 ^ 63 -> wrap64 z = z.
Proof. intros Hz. unfold wrap64. rewrite Z.mod_small; lia. Qed.

Lemma loaded_with Getenv (n : Z) :
  Getenv "HTTP_CLIENT_TIMEOUT_IN_SECONDS" = Itoa n ->
  - 2 ^ 63 <= n < 2 ^ 63 ->
  httpTimeout (loaded Getenv) = wrap64 (n * Time.Second).
Proof.
  intros Henv Hn. unfold loaded, init. rewrite Henv.
  rewrite (proj2 (Nat.ltb_lt _ _)) by apply Itoa_not_empty.
  by rewrite Atoi_Itoa.
Qed.

(** *** Properties of [init] and of the shared clients *)

(** X6. When HTTP_CLIENT_TIMEOUT_IN_SECONDS holds the decimal rendering of [n]
    seconds and [n] seconds fit a [time.Duration], [init] sets [httpTimeout]
    to exactly [n] seconds, and every client [GetHTTPClient] hands out
    afterwards has that time-out. *)
Theorem environment_timeout_applied
    (Getenv : string -> string) (n : Z) (flags : list bool) :
  Getenv "HTTP_CLIENT_TIMEOUT_IN_SECONDS" = Itoa n ->
  - 9223372036 <= n <= 9223372036 ->
  httpTimeout (loaded Getenv) = n * Time.Second /\
  forall i p,
    (calls flags (loaded Getenv)).1 !! i = Some p ->
    exists c, heap (calls flags (loaded Getenv)).2 !! p = Some c /\
              Timeout c = n * Time.Second.
Proof.
  intros Henv Hn.
  assert (httpTimeout (loaded Getenv) = n * Time.Second) as Htimeout.
  { rewrite (loaded_with Getenv n Henv) by lia. apply wrap64_small.
    unfold Time.Second, Time.Millisecond, Time.Microsecond, Time.Nanosecond.
    lia. }
  split; [done|]. intros i p Hp.
  destruct (calls_spec flags _ (well_formed_loaded Getenv))
    as (Hwf & Hlen & _ & _ & Hret).
  destruct (flags !! i) as [b|] eqn:Hb.
  - destruct (Hwf b p (Hret _ _ _ Hb Hp)) as (c & Hc & _).
    exists c. split; [done|].
    destruct (tidy_calls _ flags _ (tidy_loaded Getenv)) as (_ & Hall & _).
    rewrite <- Htimeout. apply Hall. by eapply list_elem_of_lookup_2.
  - apply lookup_ge_None in Hb. apply lookup_lt_Some in Hp. lia.
Qed.

Lemma environment_timeout_applied_witness :
  httpTimeout (loaded (setenv "HTTP_CLIENT_TIMEOUT_IN_SECONDS" "30"))
  = 30 * Time.Second.
Proof.
  apply (environment_timeout_applied
           (setenv "HTTP_CLIENT_TIMEOUT_IN_SECONDS" "30") 30 [true]).
  - reflexivity.
  - lia.
Defined.

(** X7. When the variable is unset or empty, or holds anything but decimal
    digits after an optional sign (10s, 1.5, a lone sign), [init] changes
    nothing: the time-out stays at its default of ten seconds. *)
Theorem malformed_timeout_ignored (Getenv : string -> string) (v : string) :
  Getenv "HTTP_CLIENT_TIMEOUT_IN_SECONDS" = v ->
  v = "" \/ (split_sign v).2 = "" \/ all_digits (split_sign v).2 = false ->
  loaded Getenv = initial /\
  httpTimeout (loaded Getenv) = 10 * Time.Second.
Proof.
  intros Henv Hbad.
  assert (loaded Getenv = initial) as ->; [|done].
  unfold loaded, init. rewrite Henv.
  destruct Hbad as [->|Hbad]; [done|].
  destruct (_ <? _)%nat; [|done].
  destruct (Atoi v) as [z|] eqn:Hz; [|done].
  apply Atoi_Some in Hz as (Hbody & Hdigits & _).
  destruct Hbad; congruence.
Qed.

Lemma malformed_timeout_ignored_witness :
  loaded (setenv "HTTP_CLIENT_TIMEOUT_IN_SECONDS" "10s") = initial /\
  loaded (setenv "HTTP_CLIENT_TIMEOUT_IN_SECONDS" "1.5") = initial.
Proof.
  split.
  - apply (malformed_timeout_ignored _ "10s"); [reflexivity|].
    right. right. reflexivity.
  - apply (malformed_timeout_ignored _ "1.5"); [reflexivity|].
    right. right. reflexivity.
Defined.

(** X8. A number of seconds that [Atoi] accepts but that does not fit a
    [time.Duration] is not rejected: between 9223372037 and 18446744073
    seconds the multiplication wraps around and [httpTimeout] becomes
    negative. *)
Theorem oversized_timeout_wraps (Getenv : string -> string) (n : Z) :
  Getenv "HTTP_CLIENT_TIMEOUT_IN_SECONDS" = Itoa n ->
  9223372037 <= n <= 18446744073 ->
  httpTimeout (loaded Getenv) = n * Time.Second - 2 ^ 64 /\
  httpTimeout (loaded Getenv) < 0.
Proof.
  intros Henv Hn. rewrite (loaded_with Getenv n Henv) by lia.
  unfold wrap64, Time.Second, Time.Millisecond, Time.Microsecond,
    Time.Nanosecond.
  assert ((n * (1000 * (1000 * (1000 * 1))) + 2 ^ 63) mod 2 ^ 64
          = n * (1000 * (1000 * (1000 * 1))) + 2 ^ 63 - 2 ^ 64) as ->.
  { symmetry. apply (Z.mod_unique_pos _ _ 1); lia. }
  lia.
Qed.

Lemma oversized_timeout_wraps_witness :
  httpTimeout (loaded (setenv "HTTP_CLIENT_TIMEOUT_IN_SECONDS" "9223372037"))
  < 0.
Proof.
  apply (oversized_timeout_wraps
           (setenv "HTTP_CLIENT_TIMEOUT_IN_SECONDS" "9223372037") 9223372037).
  - reflexivity.
  - lia.
Defined.

(** X9. However it is called, [GetHTTPClient] allocates at most two clients, and
    the client for insecure requests is never the one for secure requests. *)
Theorem two_clients_at_most (Getenv : string -> string) (flags : list bool) :
  (length (heap (calls flags (loaded Getenv)).2) <= 2)%nat /\
  forall i j p q,
    flags !! i = Some true -> flags !! j = Some false ->
    (calls flags (loaded Getenv)).1 !! i = Some p ->
    (calls flags (loaded Getenv)).1 !! j = Some q ->
    p <> q.
Proof.
  destruct (tidy_calls _ flags _ (tidy_loaded Getenv))
    as (_ & _ & Hlen & _ & Hne).
  destruct (calls_spec flags _ (well_formed_loaded Getenv))
    as (_ & _ & _ & _ & Hret).
  split.
  - rewrite Hlen. repeat case_match; lia.
  - intros i j p q Hi Hj Hp Hq. apply Hne; by eapply Hret.
Qed.

End ClientInitFacts.

Module MetricFacts.
Import Metric.

Lemma gaugeOpts_key (s s' : Core.Service) :
  gaugeOpts s = gaugeOpts s' -> gaugeKey s = gaugeKey s'.
Proof.
  intros Heq. apply (f_equal ConstLabels) in Heq. simpl in Heq.
  pose proof (f_equal (fun m => m !! "service") Heq) as Hname.
  pose proof (f_equal (fun m => m !! "url") Heq) as Hurl.
  simpl in Hname, Hurl.
  rewrite !lookup_insert_eq in Hname.
  rewrite !lookup_insert_ne, !lookup_singleton_eq in Hurl by done.
  unfold gaugeKey. congruence.
Qed.

Lemma value_set_gauge_Inc st key g lvs k l :
  gauges st !! key = Some g \/ (gauges st !! key = None /\ values g = ∅) ->
  value (set_gauge key (Inc lvs g) st) k l
  = (value st k l + (if bool_decide (key = k /\ lvs = l) then 1 else 0))%nat.
Proof.
  intros Hg. unfold value, set_gauge, Inc. simpl.
  destruct (decide (key = k)) as [<-|Hk].
  - rewrite lookup_insert_eq. simpl.
    destruct (decide (lvs = l)) as [<-|Hl].
    + rewrite lookup_insert_eq, bool_decide_eq_true_2 by done. simpl.
      destruct Hg as [->|[-> ->]]; [lia|]. rewrite lookup_empty. simpl. lia.
    + rewrite lookup_insert_ne by done.
      rewrite bool_decide_eq_false_2 by (by intros [_ ?]).
      destruct Hg as [->|[-> ->]]; [lia|]. rewrite lookup_empty. simpl. lia.
  - rewrite lookup_insert_ne by done.
    rewrite bool_decide_eq_false_2 by (by intros [? _]). lia.
Qed.

(** What one publication does to a sound state when metrics are on. *)
Lemma publish_step cfg service result st :
  Core.Metrics cfg = true -> sound st ->
  let st' := PublishMetricsForService cfg service result st in
  sound st' /\
  (forall k l,
     value st' k l
     = (value st k l
        + (if lands_on k l (service, result) then 1 else 0))%nat) /\
  (forall k,
     match gauges st !! k with
     | Some g => exists g', gauges st' !! k = Some g' /\ opts g' = opts g
     | None =>
         if decide (gaugeKey service = k)
         then exists g', gauges st' !! k = Some g' /\
                         opts g' = gaugeOpts service
         else gauges st' !! k = None
     end).
Proof.
  intros Hon (Hpanic & Hnodup & Hlen & Hreg & Hopts) st'. unfold st'.
  unfold PublishMetricsForService. rewrite Hpanic, Hon.
  destruct (gauges st !! gaugeKey service) as [g|] eqn:Hg.
  - split; [|split].
    + refine (conj _ (conj _ (conj _ (conj _ _)))); simpl; try done.
      * rewrite map_size_insert_Some; [done|by eexists].
      * intros o Ho. destruct (Hreg o Ho) as (s0 & -> & Hs0).
        exists s0. split; [done|]. rewrite lookup_insert_is_Some'. by right.
      * intros key g' Hkey.
        destruct (decide (gaugeKey service = key)) as [<-|Hne].
        -- rewrite lookup_insert_eq in Hkey. injection Hkey as <-.
           simpl. by eapply Hopts.
        -- rewrite lookup_insert_ne in Hkey by done. by eapply Hopts.
    + intros k l. rewrite value_set_gauge_Inc by (by left).
      unfold lands_on. simpl. done.
    + intros k. simpl.
      destruct (decide (gaugeKey service = k)) as [<-|Hne].
      * rewrite Hg, lookup_insert_eq. by eexists.
      * rewrite lookup_insert_ne by done.
        destruct (gauges st !! k) as [g'|] eqn:Hk; [by eexists|].
        rewrite ?decide_False by done. done.
  - unfold NewGaugeVec.
    assert (gaugeOpts service ∉ registry st) as Hfresh.
    { intros Hin. destruct (Hreg _ Hin) as (s0 & Heq & [g0 Hs0]).
      apply gaugeOpts_key in Heq. congruence. }
    rewrite bool_decide_eq_false_2 by done. cbn zeta.
    split; [|split].
    + refine (conj _ (conj _ (conj _ (conj _ _)))); simpl; try done.
      * apply NoDup_app. split; [done|]. split; [|apply NoDup_singleton].
        intros o Ho ->%list_elem_of_singleton. done.
      * rewrite insert_insert_eq, length_app, map_size_insert_None by done.
        simpl. lia.
      * intros o [Ho| ->%list_elem_of_singleton]%elem_of_app.
        -- destruct (Hreg o Ho) as (s0 & -> & Hs0).
           exists s0. split; [done|]. rewrite !lookup_insert_is_Some'. by do 2 right.
        -- exists service. split; [done|]. rewrite lookup_insert_eq.
           by eexists.
      * intros key g' Hkey. rewrite insert_insert_eq in Hkey.
        destruct (decide (gaugeKey service = key)) as [<-|Hne].
        -- rewrite lookup_insert_eq in Hkey. injection Hkey as <-.
           simpl. apply elem_of_app. right. by apply list_elem_of_singleton.
        -- rewrite lookup_insert_ne in Hkey by done.
           apply elem_of_app. left. by eapply Hopts.
    + intros k l. unfold value. simpl. rewrite insert_insert_eq.
      unfold lands_on. simpl.
      destruct (decide (gaugeKey service = k)) as [<-|Hne].
      * rewrite lookup_insert_eq, Hg. simpl.
        destruct (decide (labelValues result = l)) as [<-|Hl].
        -- by rewrite lookup_insert_eq, bool_decide_eq_true_2.
        -- rewrite lookup_insert_ne by done.
           by rewrite bool_decide_eq_false_2 by (by intros [_ ?]).
      * rewrite lookup_insert_ne by done.
        rewrite bool_decide_eq_false_2 by (by intros [? _]). lia.
    + intros k. simpl. rewrite insert_insert_eq.
      destruct (decide (gaugeKey service = k)) as [<-|Hne].
      * rewrite Hg, lookup_insert_eq, ?decide_True by done. by eexists.
      * rewrite lookup_insert_ne by done.
        destruct (gauges st !! k) as [g'|] eqn:Hk; [by eexists|].
        rewrite ?decide_False by done. done.
Qed.

Lemma publish_off cfg calls st :
  Core.Metrics cfg = false -> publish_all cfg calls st = st.
Proof.
  intros Hoff. induction calls as [|call calls IH]; [done|].
  unfold publish_all in *. simpl.
  unfold PublishMetricsForService at 2. rewrite Hoff.
  by destruct (panicked st).
Qed.

Lemma sound_initial : sound initial.
Proof.
  refine (conj _ (conj _ (conj _ (conj _ _)))); simpl; try done.
  - apply NoDup_nil_2.
  - by intros o ?%elem_of_nil.
Qed.

Lemma publish_all_sound cfg calls st :
  Core.Metrics cfg = true -> sound st ->
  sound (publish_all cfg calls st) /\
  forall k l,
    value (publish_all cfg calls st) k l
    = (value st k l + length (List.filter (lands_on k l) calls))%nat.
Proof.
  intros Hon. revert st. induction calls as [|[service result] calls IH];
    intros st Hsound.
  - split; [done|]. intros k l. simpl. lia.
  - destruct (publish_step cfg service result st Hon Hsound)
      as (Hsound' & Hvalue & _).
    destruct (IH _ Hsound') as [Hfinal Hcount].
    split; [done|]. intros k l.
    change (publish_all cfg ((service, result) :: calls) st)
      with (publish_all cfg calls
              (PublishMetricsForService cfg service result st)).
    rewrite Hcount, Hvalue. simpl.
    destruct (lands_on k l (service, result)); simpl; lia.
Qed.

Lemma find_snoc {A} (f : A -> bool) (l : list A) (x : A) :
  List.find f (l ++ [x])
  = match List.find f l with
    | Some y => Some y
    | None => if f x then Some x else None
    end.
Proof.
  induction l as [|y l IH]; simpl; [done|]. by destruct (f y).
Qed.

Lemma publish_all_first_labels cfg calls :
  Core.Metrics cfg = true ->
  sound (publish_all cfg calls initial) /\
  first_labels calls (publish_all cfg calls initial).
Proof.
  intros Hon. induction calls as [|[service result] calls IH] using rev_ind.
  - split; [apply sound_initial|]. intros key. simpl.
    by rewrite lookup_empty.
  - destruct IH as [Hsound Hfirst].
    unfold publish_all in *. rewrite foldl_app. simpl.
    destruct (publish_step cfg service result _ Hon Hsound)
      as (Hsound' & _ & Hgauges).
    split; [done|]. intros key. rewrite find_snoc.
    specialize (Hfirst key). specialize (Hgauges key).
    destruct (gauges (foldl _ initial calls) !! key) as [g|].
    + destruct Hgauges as (g' & -> & ->).
      destruct Hfirst as (call & -> & Hcall). by exists call.
    + rewrite Hfirst.
      destruct (decide (gaugeKey service = key)) as [Hkey|Hkey].
      * destruct Hgauges as (g' & -> & ->).
        unfold under. cbn [fst]. rewrite bool_decide_eq_true_2 by done.
        by eexists.
      * rewrite Hgauges. unfold under. cbn [fst].
        by rewrite bool_decide_eq_false_2.
Qed.

(** *** Properties of the publication of metrics *)

(** X3. After any run of publications, the gauge with given label values of the
    vector under a key has been incremented once for every published result
    of a service with that key and with that status and success; with
    metrics off nothing is counted. *)
Theorem published_results_counted
    (cfg : Core.Config) (calls : list (Core.Service * Core.Result))
    (key : string) (lvs : list string) :
  value (publish_all cfg calls initial) key lvs
  = if Core.Metrics cfg
    then length (List.filter (lands_on key lvs) calls)
    else 0%nat.
Proof.
  destruct (Core.Metrics cfg) eqn:Hon.
  - destruct (publish_all_sound cfg calls initial Hon sound_initial)
      as [_ Hcount].
    rewrite Hcount. unfold value. simpl. by rewrite lookup_empty.
  - rewrite publish_off by done. unfold value. simpl. by rewrite lookup_empty.
Qed.

(** X4. Publication never panics: no collector is registered twice, whatever
    services and results are published, and there is exactly one registered
    collector per vector in the map. *)
Theorem publication_never_panics
    (cfg : Core.Config) (calls : list (Core.Service * Core.Result)) :
  panicked (publish_all cfg calls initial) = false /\
  NoDup (registry (publish_all cfg calls initial)) /\
  length (registry (publish_all cfg calls initial))
  = size (gauges (publish_all cfg calls initial)).
Proof.
  destruct (Core.Metrics cfg) eqn:Hon.
  - destruct (publish_all_sound cfg calls initial Hon sound_initial)
      as [(Hpanic & Hnodup & Hlen & _) _]. done.
  - rewrite publish_off by done. split; [done|]. split; [apply NoDup_nil_2|].
    simpl. by rewrite map_size_empty.
Qed.

(** X5. The vector under a key carries the constant labels (service, url) of the
    first service that was published under that key. Services whose name and
    URL differ but whose key is the same are therefore all counted under the
    labels of whichever came first. *)
Theorem vector_labelled_after_first
    (cfg : Core.Config) (calls : list (Core.Service * Core.Result))
    (key : string) (g : GaugeVec) :
  gauges (publish_all cfg calls initial) !! key = Some g ->
  exists call,
    List.find (under key) calls = Some call /\
    ConstLabels (opts g)
    = {[ "service" := Core.Name call.1; "url" := Core.URL call.1 ]}.
Proof.
  intros Hg. destruct (Core.Metrics cfg) eqn:Hon.
  - destruct (publish_all_first_labels cfg calls Hon) as [_ Hfirst].
    specialize (Hfirst key). rewrite Hg in Hfirst.
    destruct Hfirst as (call & Hfind & ->). by exists call.
  - rewrite publish_off in Hg by done. simpl in Hg.
    by rewrite lookup_empty in Hg.
Qed.

Lemma vector_labelled_after_first_witness :
  gaugeKey shop = gaugeKey shop_api /\
  exists g,
    gauges (publish_all metrics_on [(shop_api, ok); (shop, unavailable)]
              initial) !! gaugeKey shop = Some g /\
    ConstLabels (opts g) !! "service" = Some "shop_api" /\
    values g !! ["503"; "false"] = Some 1%nat.
Proof.
  split; [reflexivity|].
  destruct (gauges (publish_all metrics_on
                      [(shop_api, ok); (shop, unavailable)] initial)
            !! gaugeKey shop) as [g|] eqn:Hg; [|by vm_compute in Hg].
  exists g. split; [done|].
  destruct (vector_labelled_after_first metrics_on
              [(shop_api, ok); (shop, unavailable)] (gaugeKey shop) g Hg)
    as (call & Hcall & Hlabels).
  injection Hcall as <-. rewrite Hlabels. split; [reflexivity|].
  vm_compute in Hg. injection Hg as <-. reflexivity.
Defined.

End MetricFacts.

Module KeyFacts.
Import Strconv StrconvFacts Controller ControllerRuns.

Lemma all_digits_cons c s :
  all_digits (String c s)
  = bool_decide (is_Some (digit_value c)) && all_digits s.
Proof. done. Qed.

Lemma all_digits_pretty_N_go (x : N) (s : string) :
  all_digits s = true -> all_digits (pretty_N_go x s) = true.
Proof.
  revert s. induction (N.lt_wf_0 x) as [x _ IH]. intros s Hs.
  destruct (N.eq_0_gt_0_cases x) as [->|Hpos]; [by rewrite pretty_N_go_0|].
  rewrite pretty_N_go_step by done. apply IH; [by apply N.div_lt|].
  rewrite all_digits_cons, Hs, andb_true_r.
  apply bool_decide_eq_true. rewrite digit_value_pretty_N_char; [by eexists|].
  by apply N.mod_lt.
Qed.

Lemma pretty_positive_digits (p : positive) :
  pretty (N.pos p) <> "" /\ all_digits (pretty (N.pos p)) = true.
Proof.
  unfold pretty, pretty_N. rewrite decide_False by done. split.
  - destruct (pretty_N_go_head (N.pos p) "") as (d & rest & ->); [lia|done].
  - by apply all_digits_pretty_N_go.
Qed.

Lemma number_text_pretty (z : Z) : number_text (pretty z).
Proof.
  destruct z as [|p|p].
  - exists "0". by repeat split; [|left].
  - exists (pretty (N.pos p)).
    destruct (pretty_positive_digits p) as [? ?]. by repeat split; [| |left].
  - exists (pretty (N.pos p)).
    destruct (pretty_positive_digits p) as [? ?]. by repeat split; [| |right].
Qed.

Lemma minus_not_digit : digit_value minus = None.
Proof. reflexivity. Qed.

Lemma append_cons c (a b : string) :
  String c a +:+ b = String c (a +:+ b).
Proof. done. Qed.

Lemma append_nil (b : string) : "" +:+ b = b.
Proof. done. Qed.

Lemma all_digits_head c s : all_digits (String c s) = true -> c <> minus.
Proof.
  rewrite all_digits_cons. intros [Hc _]%andb_true_iff ->.
  apply bool_decide_eq_true in Hc as [d Hd]. by rewrite minus_not_digit in Hd.
Qed.

(** Digits up to a minus sign: the digits and the rest are determined. *)
Lemma digits_then_minus (a a' x x' : string) :
  all_digits a = true -> all_digits a' = true ->
  a +:+ String minus x = a' +:+ String minus x' ->
  a = a' /\ x = x'.
Proof.
  revert a'. induction a as [|c a IH]; intros [|c' a'] Ha Ha' Heq.
  - rewrite !append_nil in Heq. by injection Heq.
  - rewrite append_nil, append_cons in Heq. injection Heq as <- _.
    by destruct (all_digits_head _ _ Ha').
  - rewrite append_nil, append_cons in Heq. injection Heq as -> _.
    by destruct (all_digits_head _ _ Ha).
  - rewrite !append_cons in Heq. injection Heq as <- Heq.
    rewrite all_digits_cons in Ha, Ha'.
    apply andb_true_iff in Ha as [_ Ha]. apply andb_true_iff in Ha' as [_ Ha'].
    destruct (IH a' Ha Ha' Heq) as [-> ->]. done.
Qed.

Lemma all_digits_not_empty_head (ds : string) :
  ds <> "" -> all_digits ds = true ->
  exists c rest, ds = String c rest /\ c <> minus.
Proof.
  destruct ds as [|c rest]; [done|]. intros _ Hds.
  exists c, rest. split; [done|]. by eapply all_digits_head.
Qed.

(** A number up to a minus sign: the number and the rest are determined. *)
Lemma number_then_minus (n n' x x' : string) :
  number_text n -> number_text n' ->
  n +:+ String minus x = n' +:+ String minus x' ->
  n = n' /\ x = x'.
Proof.
  intros (ds & Hne & Hds & Hn) (ds' & Hne' & Hds' & Hn') Heq.
  destruct (all_digits_not_empty_head ds Hne Hds) as (c & rest & Hc & Hcm).
  destruct (all_digits_not_empty_head ds' Hne' Hds') as (c' & rest' & Hc' & Hcm').
  destruct Hn as [->| ->], Hn' as [->| ->].
  - by apply digits_then_minus.
  - rewrite Hc, !append_cons in Heq. by injection Heq as -> _.
  - rewrite Hc', !append_cons in Heq. by injection Heq as <- _.
  - rewrite !append_cons in Heq. injection Heq as Heq.
    destruct (digits_then_minus _ _ _ _ Hds Hds' Heq) as [-> ->]. done.
Qed.

Lemma all_digits_minus_inside (a b : string) :
  all_digits (a +:+ String minus b) = false.
Proof.
  induction a as [|c a IH].
  - rewrite append_nil, all_digits_cons.
    by rewrite bool_decide_eq_false_2 by (by intros [? ?]).
  - rewrite append_cons, all_digits_cons, IH. apply andb_false_r.
Qed.

(** A number is never another number followed by a minus sign and more. *)
Lemma number_not_extended (n n' x : string) :
  number_text n -> number_text n' -> n <> n' +:+ String minus x.
Proof.
  intros (ds & Hne & Hds & Hn) (ds' & Hne' & Hds' & Hn') Heq.
  destruct (all_digits_not_empty_head ds Hne Hds) as (c & rest & Hc & Hcm).
  destruct (all_digits_not_empty_head ds' Hne' Hds') as (c' & rest' & Hc' & Hcm').
  destruct Hn as [->| ->], Hn' as [->| ->].
  - rewrite Heq in Hds. by rewrite all_digits_minus_inside in Hds.
  - rewrite Hc, append_cons in Heq. by injection Heq as -> _.
  - rewrite Hc', append_cons in Heq. by injection Heq as <- _.
  - rewrite append_cons in Heq. injection Heq as Heq.
    rewrite Heq in Hds. by rewrite all_digits_minus_inside in Hds.
Qed.

Lemma plainKey_inj page pageSize page' pageSize' :
  plainKey page pageSize = plainKey page' pageSize' ->
  page = page' /\ pageSize = pageSize'.
Proof.
  unfold plainKey. intros Heq. apply String.app_inj in Heq.
  change ("-" +:+ pretty pageSize) with (String minus (pretty pageSize)) in Heq.
  change ("-" +:+ pretty pageSize') with (String minus (pretty pageSize'))
    in Heq.
  apply number_then_minus in Heq as [Hp Hs]; [|apply number_text_pretty..].
  split; by apply (inj pretty).
Qed.

Lemma gzippedKey_inj page pageSize page' pageSize' :
  gzippedKey page pageSize = gzippedKey page' pageSize' ->
  page = page' /\ pageSize = pageSize'.
Proof.
  unfold gzippedKey. intros Heq. apply String.app_inj in Heq.
  change ("-" +:+ pretty pageSize +:+ "-gzipped")
    with (String minus (pretty pageSize +:+ String minus "gzipped")) in Heq.
  change ("-" +:+ pretty pageSize' +:+ "-gzipped")
    with (String minus (pretty pageSize' +:+ String minus "gzipped")) in Heq.
  apply number_then_minus in Heq as [Hp Heq]; [|apply number_text_pretty..].
  apply number_then_minus in Heq as [Hs _]; [|apply number_text_pretty..].
  split; by apply (inj pretty).
Qed.

Lemma plainKey_never_gzippedKey page pageSize page' pageSize' :
  plainKey page pageSize <> gzippedKey page' pageSize'.
Proof.
  unfold plainKey, gzippedKey. intros Heq. apply String.app_inj in Heq.
  change ("-" +:+ pretty pageSize) with (String minus (pretty pageSize)) in Heq.
  change ("-" +:+ pretty pageSize' +:+ "-gzipped")
    with (String minus (pretty pageSize' +:+ String minus "gzipped")) in Heq.
  apply number_then_minus in Heq as [_ Heq]; [|apply number_text_pretty..].
  by eapply number_not_extended; [apply number_text_pretty..|].
Qed.

(** X10. The keys of two requests are equal exactly when the requests ask for
    the same page, the same page size and the same encoding: no two
    (page, pageSize, encoding) share a cache entry. *)
Theorem cache_keys_distinct (r r' : Request) :
  key_of r = key_of r' <->
  page r = page r' /\ pageSize r = pageSize r' /\
  Contains (AcceptEncoding r) "gzip" = Contains (AcceptEncoding r') "gzip".
Proof.
  unfold key_of. split.
  - destruct (Contains (AcceptEncoding r) "gzip"),
      (Contains (AcceptEncoding r') "gzip"); intros Heq.
    + by apply gzippedKey_inj in Heq as [-> ->].
    + symmetry in Heq. by apply plainKey_never_gzippedKey in Heq.
    + by apply plainKey_never_gzippedKey in Heq.
    + by apply plainKey_inj in Heq as [-> ->].
  - by intros (-> & -> & ->).
Qed.

End KeyFacts.

Module ControllerRunsFacts.
Import Core Gocache Storage Controller ControllerRuns.
Import GocacheFacts ControllerFacts KeyFacts.

Lemma enforce_max_fits m es :
  Z.of_nat (length es) <= m -> enforce_max m es = es.
Proof.
  intros Hfit. unfold enforce_max.
  rewrite (proj2 (Z.ltb_ge _ _)) by done. by rewrite andb_false_r.
Qed.

Lemma length_without k es : (length (without k es) <= length es)%nat.
Proof. apply filter_length_le. Qed.

Lemma SetWithTTL_other now k v ttl c k' :
  k' <> k -> Z.of_nat (length (entries c)) + 1 <= maxSize c ->
  get k' (SetWithTTL now k v ttl c) = get k' c /\
  (length (entries (SetWithTTL now k v ttl c))
   <= Datatypes.S (length (entries c)))%nat.
Proof.
  intros Hne Hroom. unfold SetWithTTL, get. simpl.
  pose proof (length_without k (entries c)) as Hlen.
  rewrite enforce_max_fits by (simpl; lia).
  split; [|simpl; lia].
  rewrite find_skip by (simpl; congruence).
  by apply find_without_other.
Qed.

Lemma Get_other now k c k' :
  evictionPolicy c = FirstInFirstOut -> k' <> k ->
  get k' (Get now k c).2 = get k' c /\
  (length (entries (Get now k c).2) <= length (entries c))%nat.
Proof.
  intros Hfifo Hne. unfold Get.
  destruct (get k c) as [e|]; [|done].
  destruct (Expired now e); simpl.
  - split; [by apply find_without_other|apply length_without].
  - by rewrite Hfifo.
Qed.

Section Runs.
Context {S : Type} {store_ops : Store S} {encoder : Encoder}.
Implicit Types (w : world S) (t : readings) (r : Request).

(** *** Properties of runs of [serviceStatusesHandler] *)

(** X11. A call for one page and page size leaves the cache entries of every
    other page or page size as they were, in both encodings, as long as the
    cache has room for the two entries the call may write. *)
Theorem another_page_untouched w t r r' :
  configured (the_cache w) -> room (the_cache w) ->
  page r' <> page r \/ pageSize r' <> pageSize r ->
  get (key_of r') (the_cache (serviceStatusesHandler t r w).2)
  = get (key_of r') (the_cache w).
Proof.
  intros [Hmax Hfifo] Hroom Hother. unfold room in Hroom.
  assert (key_of r' <> key_of r) as Hkey.
  { rewrite cache_keys_distinct. intros (? & ? & _). tauto. }
  assert (key_of r' <> plainKey (page r) (pageSize r)) as Hplain.
  { unfold key_of. destruct (Contains (AcceptEncoding r') "gzip").
    - intros Heq. symmetry in Heq. by apply plainKey_never_gzippedKey in Heq.
    - intros [? ?]%plainKey_inj. tauto. }
  assert (key_of r' <> gzippedKey (page r) (pageSize r)) as Hgz.
  { unfold key_of. destruct (Contains (AcceptEncoding r') "gzip").
    - intros [? ?]%gzippedKey_inj. tauto.
    - apply plainKey_never_gzippedKey. }
  destruct (Get_other (atGet t) (key_of r) (the_cache w) (key_of r')
              Hfifo Hkey) as [Hget Hlen].
  destruct (Get_settings (atGet t) (key_of r) (the_cache w)) as [Hm _].
  destruct (cache_after t r w) as [->|[data ->]]; [done|].
  unfold filled.
  destruct (SetWithTTL_other (atSetPlain t) (plainKey (page r) (pageSize r))
              data cacheTTL (Get (atGet t) (key_of r) (the_cache w)).2
              (key_of r') Hplain) as [Hget1 Hlen1]; [lia|].
  destruct (SetWithTTL_other (atSetGzipped t)
              (gzippedKey (page r) (pageSize r)) (Gzip data) cacheTTL
              (SetWithTTL (atSetPlain t) (plainKey (page r) (pageSize r))
                 data cacheTTL (Get (atGet t) (key_of r) (the_cache w)).2)
              (key_of r') Hgz) as [Hget2 _].
  { change (maxSize (SetWithTTL _ _ _ _ ?c)) with (maxSize c). lia. }
  congruence.
Qed.

(** X12. Hits do not prolong an entry: however many calls were answered from the
    cache meanwhile, a call that looks the cache up after the expiration of
    the entry for its encoding computes again, from the store as it is
    then. *)
Theorem expired_entry_recomputed
    (c : Cache) t r (data : list Byte.byte)
    (hits : list (readings * S)) (store : S) (n : nat)
    t' (store' : S) (data' : list Byte.byte) :
  holds_both c t r data ->
  Forall (fun call => within_ttl t call.1) hits ->
  0 <= atSetPlain t -> 0 <= atSetGzipped t ->
  (if Contains (AcceptEncoding r) "gzip"
   then atSetGzipped t else atSetPlain t) + cacheTTL < atGet t' ->
  Marshal (Statuses (GetAllServiceStatusesWithResultPagination
                       store' (page r) (pageSize r))) = Some data' ->
  let w1 := (serve hits r (mkWorld c store n)).2 in
  let late :=
    serviceStatusesHandler t' r (mkWorld (the_cache w1) store' (computed w1))
  in
  the_cache w1 = c /\ computed w1 = n /\
  late.1 = ok_response r data' /\
  computed late.2 = Datatypes.S n.
Proof.
  intros Hboth Hhits Hp Hg Hlate Hdata' w1 late. unfold late, w1.
  rewrite (serve_hits c t r data hits n store Hboth Hhits).
  cbn [snd the_cache computed]. split; [done|]. split; [done|].
  destruct Hboth as (Hfifo & Hplain & Hgz).
  assert (0 < cacheTTL) as Hpos by (by vm_compute).
  assert ((Get (atGet t') (key_of r) c).1 = None) as Hmiss.
  { rewrite fst_Get. unfold key_of.
    destruct (Contains (AcceptEncoding r) "gzip").
    - rewrite Hgz. unfold Expired, gzippedEntry. simpl.
      rewrite (proj2 (Z.ltb_lt _ _)), (proj2 (Z.ltb_lt _ _)) by lia. done.
    - rewrite Hplain. unfold Expired, plainEntry. simpl.
      rewrite (proj2 (Z.ltb_lt _ _)), (proj2 (Z.ltb_lt _ _)) by lia. done. }
  by rewrite (handler_miss_ok t' r (mkWorld c store' n) data' Hmiss Hdata').
Qed.

(** X13. When marshalling fails for a request that accepts gzip, the answer is
    status 500 with the plain text of the message as its body, yet it still
    carries the header Content-Encoding: gzip, set before the lookup, and no
    Content-Type. *)
Theorem error_answer_keeps_gzip_label w t r :
  (Get (atGet t) (key_of r) (the_cache w)).1 = None ->
  Marshal (Statuses (GetAllServiceStatusesWithResultPagination
                       (the_store w) (page r) (pageSize r))) = None ->
  Contains (AcceptEncoding r) "gzip" = true ->
  (serviceStatusesHandler t r w).1
  = {| Header := [("Content-Encoding", "gzip")];
       status := Some StatusInternalServerError;
       body := bytes "Unable to marshal object to JSON" |}.
Proof.
  intros Hmiss Hfail Hgz. rewrite (handler_miss_fail t r w Hmiss Hfail).
  unfold failure_response, writer_for. by rewrite Hgz.
Qed.

Lemma sourced_mono (stores stores' : list S) c :
  (forall s, s ∈ stores -> s ∈ stores') ->
  sourced stores c -> sourced stores' c.
Proof.
  intros Hsub Hc e He.
  destruct (Hc e He) as (p & ps & data & (store & Hin & Hm) & Hkey).
  exists p, ps, data. split; [|done]. exists store. auto.
Qed.

Lemma ok_response_fields r data :
  status (ok_response r data) = Some 200 /\
  Header (ok_response r data) = ok_headers r /\
  body (ok_response r data)
  = if Contains (AcceptEncoding r) "gzip" then Gzip data else data.
Proof.
  unfold ok_response, answer_with, writer_for, ok_headers.
  by destruct (Contains (AcceptEncoding r) "gzip").
Qed.

(** One call on a cache whose entries all come from [stores]. *)
Lemma handler_sourced (stores : list S) t r w :
  sourced stores (the_cache w) -> the_store w ∈ stores ->
  sourced stores (the_cache (serviceStatusesHandler t r w).2) /\
  ((exists data,
      marshalled_from stores (page r) (pageSize r) data /\
      (serviceStatusesHandler t r w).1 = ok_response r data) \/
   (serviceStatusesHandler t r w).1 = failure_response r).
Proof.
  intros Hsourced Hstore.
  assert (sourced stores (Get (atGet t) (key_of r) (the_cache w)).2) as Hgot.
  { intros e He. apply Hsourced. by eapply Get_elem_of. }
  destruct (Get (atGet t) (key_of r) (the_cache w)).1 as [sent|] eqn:Hget.
  - rewrite (handler_hit t r w sent Hget). cbn [fst snd the_cache].
    split; [done|]. left.
    rewrite fst_Get in Hget.
    destruct (get (key_of r) (the_cache w)) as [e|] eqn:He; [|done].
    destruct (Expired (atGet t) e); [done|]. injection Hget as <-.
    apply find_some in He as [Hin Hkey].
    apply bool_decide_eq_true in Hkey. apply list_elem_of_In in Hin.
    destruct (Hsourced e Hin) as (p & ps & data & Hm & Hform).
    exists data. unfold ok_response, key_of in *.
    destruct (Contains (AcceptEncoding r) "gzip");
      destruct Hform as [[Hk Hv]|[Hk Hv]]; rewrite Hk in Hkey.
    + by apply plainKey_never_gzippedKey in Hkey.
    + apply gzippedKey_inj in Hkey as [-> ->]. by rewrite Hv.
    + apply plainKey_inj in Hkey as [-> ->]. by rewrite Hv.
    + symmetry in Hkey. by apply plainKey_never_gzippedKey in Hkey.
  - destruct (Marshal (Statuses (GetAllServiceStatusesWithResultPagination
                                   (the_store w) (page r) (pageSize r))))
      as [data|] eqn:Hdata.
    + rewrite (handler_miss_ok t r w data Hget Hdata).
      cbn [fst snd the_cache].
      assert (marshalled_from stores (page r) (pageSize r) data) as Hm
        by (by exists (the_store w)).
      split; [|left; by exists data].
      intros e He. unfold filled in He.
      apply SetWithTTL_elem_of in He as [->|He];
        [|apply SetWithTTL_elem_of in He as [->|He]].
      * exists (page r), (pageSize r), data. split; [done|]. by right.
      * exists (page r), (pageSize r), data. split; [done|]. by left.
      * by apply Hgot.
    + rewrite (handler_miss_fail t r w Hget Hdata).
      cbn [fst snd the_cache]. split; [done|]. by right.
Qed.

Lemma serve_requests_cons t store r rest w :
  serve_requests ((t, store, r) :: rest) w
  = ((serviceStatusesHandler t r
        (mkWorld (the_cache w) store (computed w))).1
       :: (serve_requests rest
             (serviceStatusesHandler t r
                (mkWorld (the_cache w) store (computed w))).2).1,
     (serve_requests rest
        (serviceStatusesHandler t r
           (mkWorld (the_cache w) store (computed w))).2).2).
Proof.
  cbn [serve_requests].
  destruct (serviceStatusesHandler t r _) as [response w1]. cbn [fst snd].
  by destruct (serve_requests rest w1).
Qed.

Lemma serve_requests_sourced (calls : list (readings * S * Request))
    (stores : list S) w i t store r response :
  sourced stores (the_cache w) ->
  calls !! i = Some (t, store, r) ->
  (serve_requests calls w).1 !! i = Some response ->
  (exists data,
     marshalled_from (stores ++ (take (Datatypes.S i) calls).*1.*2)
       (page r) (pageSize r) data /\
     response = ok_response r data) \/
  response = failure_response r.
Proof.
  revert stores w i. induction calls as [|[[t0 store0] r0] rest IH];
    intros stores w i Hsourced Hcall Hresponse; [done|].
  rewrite serve_requests_cons in Hresponse. cbn [fst] in Hresponse.
  destruct (handler_sourced (stores ++ [store0]) t0 r0
              (mkWorld (the_cache w) store0 (computed w)))
    as [Hnext Hanswer].
  { eapply sourced_mono; [|done]. intros s Hs. apply elem_of_app. by left. }
  { apply elem_of_app. right. by apply list_elem_of_singleton. }
  destruct i as [|i]; simpl in Hcall, Hresponse.
  - injection Hcall as -> -> ->. injection Hresponse as <-.
    exact Hanswer.
  - destruct (IH _ _ _ Hnext Hcall Hresponse) as [(data & Hm & ->)| ->];
      [left|by right].
    exists data. split; [|done]. cbn [take fmap list_fmap].
    by rewrite <- app_assoc in Hm.
Qed.

(** X14. Starting from the empty cache, every answer of a run of calls is either
    the 500 of a failed marshalling or a 200 whose body is the marshalling of
    the statuses for the page and page size that were asked for, taken from
    the store as it was at this or an earlier call, gzip-compressed exactly
    when the request accepts gzip, which is also exactly when the answer
    says Content-Encoding: gzip. A request never gets another page's
    statuses or the other encoding. *)
Theorem answers_come_from_the_store
    (calls : list (readings * S * Request)) (store0 : S) (n : nat)
    (i : nat) t (store : S) r (response : ResponseWriter) :
  calls !! i = Some (t, store, r) ->
  (serve_requests calls (mkWorld cache store0 n)).1 !! i = Some response ->
  (status response = Some 200 /\
   Header response = ok_headers r /\
   exists data,
     marshalled_from (take (Datatypes.S i) calls).*1.*2
       (page r) (pageSize r) data /\
     body response
     = if Contains (AcceptEncoding r) "gzip" then Gzip data else data) \/
  (status response = Some 500 /\ response = failure_response r).
Proof.
  intros Hcall Hresponse.
  destruct (serve_requests_sourced calls [] (mkWorld cache store0 n)
              i t store r response) as [(data & Hm & ->)| ->]; [|done..| |].
  - by intros e ?%elem_of_nil.
  - left. destruct (ok_response_fields r data) as (? & ? & ?).
    split; [done|]. split; [done|]. by exists data.
  - right. split; [|done]. unfold failure_response, writer_for.
    by destruct (Contains _ _).
Qed.



End Runs.

Lemma another_page_untouched_witness :
  get (key_of second_page)
    (the_cache (serviceStatusesHandler (encoder := sample_Encoder)
                  (at_second 101) first_page after_second_page).2)
  = get (key_of second_page) (the_cache after_second_page).
Proof.
  apply (another_page_untouched (encoder := sample_Encoder)
           after_second_page (at_second 101) first_page second_page).
  - split; reflexivity.
  - unfold room. vm_compute. discriminate.
  - left. discriminate.
Defined.

Lemma expired_entry_recomputed_witness :
  (serviceStatusesHandler (encoder := sample_Encoder) (at_second 111)
     first_page (mkWorld after_first_page store_after 1)).1
  = ok_response (encoder := sample_Encoder) first_page encoded_after.
Proof.
  destruct (expired_entry_recomputed (encoder := sample_Encoder)
              after_first_page (at_second 100) first_page encoded_before
              [(at_second 105, store_after)] store_before 1
              (at_second 111) store_after encoded_after)
    as (Hcache & Hcomputed & Hlate & _).
  - repeat split.
  - repeat constructor; vm_compute; discriminate.
  - vm_compute. discriminate.
  - vm_compute. discriminate.
  - reflexivity.
  - reflexivity.
  - rewrite Hcache, Hcomputed in Hlate. exact Hlate.
Defined.

Lemma error_answer_keeps_gzip_label_witness :
  Header (serviceStatusesHandler (encoder := sample_Encoder) (at_second 100)
            first_page_gzipped (fresh store_broken)).1
  = [("Content-Encoding", "gzip")].
Proof.
  rewrite (error_answer_keeps_gzip_label (encoder := sample_Encoder)
             (fresh store_broken) (at_second 100) first_page_gzipped);
    reflexivity.
Defined.

Lemma answers_come_from_the_store_witness :
  exists response,
    (serve_requests (encoder := sample_Encoder) two_calls
       (mkWorld cache store_broken 0)).1 !! 1%nat = Some response /\
    body response = Gzip (Encoder := sample_Encoder) encoded_before.
Proof.
  exists (ok_response (encoder := sample_Encoder) first_page_gzipped
            encoded_before).
  assert ((serve_requests (encoder := sample_Encoder) two_calls
             (mkWorld cache store_broken 0)).1 !! 1%nat
          = Some (ok_response (encoder := sample_Encoder) first_page_gzipped
                    encoded_before)) as Hresponse by reflexivity.
  split; [exact Hresponse|].
  destruct (answers_come_from_the_store (encoder := sample_Encoder)
              two_calls store_broken 0 1 (at_second 105) store_after
              first_page_gzipped _ eq_refl Hresponse)
    as [(_ & _ & data & _ & Hbody)|[Hstatus _]].
  - reflexivity.
  - discriminate Hstatus.
Defined.


(** It does not suffice that the calls for one encoding do not overlap one
    another: a miss writes both keys, so a call for the other encoding that
    is in flight meanwhile replaces what the first call cached. The two
    plain calls below do not overlap and the second looks the cache up three
    seconds after the first; yet there are two computations and the two are
    answered with different bytes. *)
Example call_in_flight_replaces_entry :
  computed (interleave (encoder := sample_Encoder) overtaken
              (three_callers, fresh store_before)).2 = 2%nat /\
  answer_of <$> (interleave (encoder := sample_Encoder) overtaken
                   (three_callers, fresh store_before)).1
  = [Some (ok_response (encoder := sample_Encoder) first_page_gzipped
             encoded_after);
     Some (ok_response (encoder := sample_Encoder) first_page
             encoded_before);
     Some (ok_response (encoder := sample_Encoder) first_page
             encoded_after)] /\
  encoded_before <> encoded_after.
Proof.
  split; [reflexivity|]. split; [vm_compute; reflexivity|].
  vm_compute. discriminate.
Qed.

End ControllerRunsFacts.

Module LifecycleFacts.
Import Lifecycle.

Lemma shut_down_Handle web Getenv st :
  shut_down (Handle web Getenv st) = shut_down st.
Proof.
  unfold shut_down, Handle. simpl.
  destruct (bool_decide _); [done|]. rewrite omap_app. simpl.
  by rewrite app_nil_r.
Qed.

Lemma orderly_apply o st : orderly st -> orderly (apply o st).
Proof.
  intros Hst. pose proof Hst as (Hnodup & Hlt & Hserver).
  destruct o as [web Getenv|]; simpl.
  - refine (conj _ (conj _ _)); rewrite ?shut_down_Handle.
    + done.
    + intros p Hp. specialize (Hlt p Hp). simpl. rewrite length_app. lia.
    + intros p [= <-]. simpl. rewrite length_app. simpl.
      split; [lia|]. intros Hp. specialize (Hlt _ Hp). lia.
  - unfold Shutdown. destruct (server st) as [p|] eqn:Hp; [|exact Hst].
    destruct (Hserver p eq_refl) as [Hlast Hfresh].
    assert (shut_down {| servers := servers st; server := None;
                         events := events st ++ [ShutdownCalled p] |}
            = shut_down st ++ [p]) as Hshut.
    { unfold shut_down. simpl. by rewrite omap_app. }
    refine (conj _ (conj _ _)); rewrite ?Hshut; simpl.
    + apply NoDup_app. split; [done|]. split; [|apply NoDup_singleton].
      by intros q Hq ->%list_elem_of_singleton.
    + intros q [Hq| ->%list_elem_of_singleton]%elem_of_app; [by apply Hlt|lia].
    + done.
Qed.

Lemma orderly_run ops st : orderly st -> orderly (run ops st).
Proof.
  revert st. induction ops as [|o ops IH]; intros st Hst; [done|].
  apply IH. by apply orderly_apply.
Qed.

(** X15. In any sequence of calls to [Handle] and [Shutdown]: no server is shut
    down twice, a shutdown never hits anything but the server created by the
    latest [Handle], [Shutdown] without a server (before any [Handle], or
    right after a [Shutdown]) does nothing, and after [Shutdown] the package
    holds no server. *)
Theorem shutdown_is_orderly (ops : list op) :
  let st := run ops initial in
  NoDup (shut_down st) /\
  (forall p, server st = Some p ->
             Datatypes.S p = length (servers st) /\ p ∉ shut_down st) /\
  server (Shutdown st) = None /\
  Shutdown (Shutdown st) = Shutdown st /\
  (server st = None -> Shutdown st = st).
Proof.
  intros st.
  assert (orderly initial) as Hinit.
  { refine (conj _ (conj _ _)); [apply NoDup_nil_2| |done].
    by intros p ?%elem_of_nil. }
  destruct (orderly_run ops initial Hinit) as (Hnodup & _ & Hserver).
  fold st in Hnodup, Hserver.
  split; [done|]. split; [done|].
  unfold Shutdown. destruct (server st) eqn:Hp; simpl; by rewrite ?Hp.
Qed.

End LifecycleFacts.
